(** * Gmail processor: webhook ingestion pipeline and Upstash-backed email store

    Shallow embedding of
    - [src/unnamed/part_000]  (lib/email-store-kv.ts, class [UpstashEmailStore]),
    - [src/app/api/gmail/webhook/route.ts] ([extractEmailDetails],
      [fetchNewEmails], [POST]).

    The Redis backend is modelled by the three keys the store uses: the list
    ['gmail:emails'], the per-id keys ['gmail:email:<id>'] (each with its own
    expiry deadline) and the scalar ['gmail:stats:lastReceived'].  The key
    ['gmail:email:' ++ id] is injective in [id] and never equal to the other
    two keys, so the per-id keys are a map indexed by [id].

    Effects (Redis commands, Gmail API calls, thrown exceptions, the clock)
    are threaded through a small state-and-exception monad [M].  Each Redis
    command consumes one entry of a fault stream: [true] makes the command
    throw, which is how a backend failure is modelled.  Gmail API calls are
    answered by an oracle and logged, so that "no provider call" is
    observable.  Time is in milliseconds ([Date.now()]). *)

From Stdlib Require Import ZArith Bool Ascii String List.
From stdpp Require Import base gmap strings pretty.
Import ListNotations.

Open Scope Z_scope.

(** ** Data model *)

(** [historyId: string | number]; numbers are integral Gmail history ids. *)
Inductive HistoryId :=
| HStr (s : string)
| HNum (n : Z).

(** [String(historyId)] *)
Definition historyIdString (h : HistoryId) : string :=
  match h with
  | HStr s => s
  | HNum n => pretty n
  end.

(** [interface StoredEmail] ([body?: string] is an option). *)
Record StoredEmail := mkStoredEmail {
  id : string;
  threadId : string;
  subject : string;
  from : string;
  to : string;
  date : string;
  snippet : string;
  body : option string;
  receivedAt : string;
  historyId : HistoryId
}.

(** [interface EmailDetails] (the result of [extractEmailDetails]). *)
Record EmailDetails := mkEmailDetails {
  ed_id : string;
  ed_threadId : string;
  ed_subject : string;
  ed_from : string;
  ed_to : string;
  ed_date : string;
  ed_snippet : string;
  ed_body : option string
}.

(** [interface GmailMessage]; [x?: T | null] is [option T]. *)
Record Header := mkHeader { hname : string; hvalue : string }.
Record Part := mkPart { mimeType : string; part_data : option string }.
Record Payload := mkPayload {
  headers : option (list Header);
  payload_data : option string;          (* payload.body?.data *)
  parts : option (list Part)
}.
Record GmailMessage := mkGmailMessage {
  msg_id : option string;
  msg_threadId : option string;
  payload : option Payload;
  msg_snippet : option string
}.

(** One entry of [history.data.history]: [messagesAdded[].message?.id]. *)
Record HistoryRecord := mkHistoryRecord {
  messagesAdded : option (list (option string))
}.

(** [interface GmailNotification] (the JSON inside the Pub/Sub data). *)
Record GmailNotification := mkGmailNotification {
  emailAddress : string;
  notif_historyId : HistoryId
}.

(** [interface PubSubMessage]. *)
Record PubSubInner := mkPubSubInner {
  data : option string;
  messageId : string;
  publishTime : string
}.
Record PubSubMessage := mkPubSubMessage {
  message : option PubSubInner;
  subscription : string
}.

(** The JSON response of the handler: [NextResponse.json({status}, {status})]. *)
Record Response := mkResponse { http_status : Z; resp_status : string }.

(** ** Backend state (Redis keys of [UpstashEmailStore]) *)

Record Store := mkStore {
  emails : list StoredEmail;                  (* 'gmail:emails' *)
  byId : gmap string (StoredEmail * Z);       (* 'gmail:email:<id>' and its deadline *)
  lastReceived : option (string * Z)          (* 'gmail:stats:lastReceived' and its deadline *)
}.

Definition emptyStore : Store := mkStore [] ∅ None.

(** Library and provider behaviour the code relies on.  [None] from
    [json_parse] stands for [JSON.parse] throwing, or for a parsed value
    whose property reads throw; an [inl] from a Gmail call is a thrown
    error. *)
Inductive Exn := RedisError | ProviderError | ParseError | RequestError.

Record Ext := mkExt {
  toISOString : Z -> string;
  b64decode : string -> string;      (* Buffer.from(_, 'base64').toString('utf-8') *)
  json_parse : string -> option GmailNotification;
  gmail_history : string -> Exn + option (list HistoryRecord);
  gmail_list_unread : Exn + option (list (option string));
  gmail_get : string -> Exn + GmailMessage
}.

(** Gmail API calls, in the order they are issued. *)
Inductive Call :=
| CHistoryList (start : string)
| CMessagesList
| CMessagesGet (mid : string).

Record World := mkWorld {
  ext : Ext;
  store : Store;
  now : Z;                                 (* Date.now(), in ms *)
  faults : list bool;                      (* fault stream of the Redis commands *)
  calls : list Call;                       (* Gmail API calls issued so far *)
  local_emails : list EmailDetails         (* the array [emails] of fetchNewEmails *)
}.

Definition set_store (s : Store) (w : World) : World :=
  mkWorld (ext w) s (now w) (faults w) (calls w) (local_emails w).
Definition set_faults (f : list bool) (w : World) : World :=
  mkWorld (ext w) (store w) (now w) f (calls w) (local_emails w).
Definition add_call (c : Call) (w : World) : World :=
  mkWorld (ext w) (store w) (now w) (faults w) (calls w ++ [c]) (local_emails w).
Definition set_local (l : list EmailDetails) (w : World) : World :=
  mkWorld (ext w) (store w) (now w) (faults w) (calls w) l.
Definition set_now (t : Z) (w : World) : World :=
  mkWorld (ext w) (store w) t (faults w) (calls w) (local_emails w).

(** ** The monad *)

Definition M (A : Type) : Type := World -> (Exn + A) * World.

Definition ret {A} (a : A) : M A := fun w => (inr a, w).
Definition bind {A B} (m : M A) (k : A -> M B) : M B := fun w =>
  match m w with
  | (inl e, w') => (inl e, w')
  | (inr a, w') => k a w'
  end.
Definition throw {A} (e : Exn) : M A := fun w => (inl e, w).
(** [try { m } catch { h }]: the world reached when [m] threw is kept. *)
Definition try_catch {A} (m : M A) (h : Exn -> M A) : M A := fun w =>
  match m w with
  | (inl e, w') => h e w'
  | (inr a, w') => (inr a, w')
  end.
Definition get_world : M World := fun w => (inr w, w).
Definition modify (f : World -> World) : M unit := fun w => (inr tt, f w).

Notation "'do' x <- m ; k" := (bind m (fun x => k))
  (at level 200, x name, m at level 100, k at level 200).
Notation "'do_' m ; k" := (bind m (fun _ => k))
  (at level 200, m at level 100, k at level 200).

Fixpoint forM_ {A} (l : list A) (f : A -> M unit) : M unit :=
  match l with
  | [] => ret tt
  | x :: l' => do_ f x ; forM_ l' f
  end.

(** Time passing between two events (never backwards). *)
Definition advance (d : N) : M unit :=
  modify (fun w => set_now (now w + Z.of_N d) w).

(** ** Redis commands on the store's keys *)

(** [LRANGE key start stop] (and the range kept by [LTRIM]), following
    Redis: negative indices count from the end of the list. *)
Definition lrange {A} (l : list A) (start stop : Z) : list A :=
  let len := Z.of_nat (length l) in
  let start1 := if start <? 0 then len + start else start in
  let stop1 := if stop <? 0 then len + stop else stop in
  let start2 := if start1 <? 0 then 0 else start1 in
  if (start2 >? stop1) || (start2 >=? len) then []
  else
    let stop2 := if stop1 >=? len then len - 1 else stop1 in
    firstn (Z.to_nat (stop2 - start2 + 1)) (skipn (Z.to_nat start2) l).

(** A key set with [ex] seconds at time [t] (ms) is readable up to [t + 1000 ex]. *)
Definition alive (t deadline : Z) : bool := t <=? deadline.

(** One Redis command: consumes one entry of the fault stream. *)
Definition redis {A} (f : Z -> Store -> A * Store) : M A := fun w =>
  let run fs := let '(a, s') := f (now w) (store w) in
                 (inr a, set_faults fs (set_store s' w)) in
  match faults w with
  | true :: fs => (inl RedisError, set_faults fs w)
  | false :: fs => run fs
  | [] => run []
  end.

Definition r_lpush (e : StoredEmail) : M Z :=
  redis (fun _ s => (Z.of_nat (S (length (emails s))),
                     mkStore (e :: emails s) (byId s) (lastReceived s))).
Definition r_ltrim (a b : Z) : M unit :=
  redis (fun _ s => (tt, mkStore (lrange (emails s) a b) (byId s) (lastReceived s))).
Definition r_lrange (a b : Z) : M (list StoredEmail) :=
  redis (fun _ s => (lrange (emails s) a b, s)).
Definition r_llen : M Z :=
  redis (fun _ s => (Z.of_nat (length (emails s)), s)).
Definition r_set_email (i : string) (e : StoredEmail) (ex : Z) : M unit :=
  redis (fun t s => (tt, mkStore (emails s) (<[i := (e, t + ex * 1000)]> (byId s))
                                 (lastReceived s))).
Definition r_get_email (i : string) : M (option StoredEmail) :=
  redis (fun t s => (match byId s !! i with
                     | Some (e, d) => if alive t d then Some e else None
                     | None => None
                     end, s)).
Definition r_del_emails_by_id (ids : list string) : M unit :=
  redis (fun _ s => (tt, mkStore (emails s) (foldr delete (byId s) ids) (lastReceived s))).
Definition r_del_list : M unit :=
  redis (fun _ s => (tt, mkStore [] (byId s) (lastReceived s))).
Definition r_set_last (v : string) (ex : Z) : M unit :=
  redis (fun t s => (tt, mkStore (emails s) (byId s) (Some (v, t + ex * 1000)))).
Definition r_get_last : M (option string) :=
  redis (fun t s => (match lastReceived s with
                     | Some (v, d) => if alive t d then Some v else None
                     | None => None
                     end, s)).
Definition r_del_last : M unit :=
  redis (fun _ s => (tt, mkStore (emails s) (byId s) None)).

Definition get_ext : M Ext := fun w => (inr (ext w), w).

(** ** [UpstashEmailStore] *)

Definition maxEmails : Z := 100.
Definition emailTTL : Z := 60 * 60 * 24 * 30.

Definition updateStats : M unit :=
  do w <- get_world;
  r_set_last (toISOString (ext w) (now w)) emailTTL.

Definition addEmail (email : StoredEmail) : M bool :=
  try_catch
    (do_ r_lpush email;
     do_ r_ltrim 0 (maxEmails - 1);
     do_ r_set_email (id email) email emailTTL;
     do_ updateStats;
     ret true)
    (fun _ => ret false).

Definition getEmails (limit : Z) : M (list StoredEmail) :=
  try_catch (r_lrange 0 (limit - 1)) (fun _ => ret []).

Definition getEmail (i : string) : M (option StoredEmail) :=
  try_catch (r_get_email i) (fun _ => ret None).

Record Stats := mkStats {
  totalEmails : Z;
  newestEmail : option string;
  oldestEmail : option string;
  st_lastReceived : option string
}.

Definition getStats : M Stats :=
  try_catch
    (do total <- r_llen;
     do last <- r_get_last;
     do es <- r_lrange 0 0;
     do olds <- r_lrange (-1) (-1);
     ret (mkStats total (option_map date (head es)) (option_map date (head olds))
                  (match last with            (* [lastReceived || null] *)
                   | Some v => if String.eqb v "" then None else Some v
                   | None => None
                   end)))
    (fun _ => ret (mkStats 0 None None None)).

Definition clear : M bool :=
  try_catch
    (do es <- r_lrange 0 (-1);
     do_ (if (0 <? length es)%nat then r_del_emails_by_id (map id es) else ret tt);
     do_ r_del_list;
     do_ r_del_last;
     ret true)
    (fun _ => ret false).

(** ** [extractEmailDetails] *)

(** JavaScript truthiness of a [string | null | undefined]. *)
Definition truthy (o : option string) : option string :=
  match o with
  | Some s => if String.eqb s "" then None else Some s
  | None => None
  end.

(** [x || ''] *)
Definition or_empty (o : option string) : string :=
  match truthy o with Some s => s | None => "" end.

(** [String.prototype.toLowerCase] on ASCII text. *)
Definition lower_ascii (c : ascii) : ascii :=
  let n := nat_of_ascii c in
  if (Nat.leb 65 n && Nat.leb n 90)%bool then ascii_of_nat (n + 32) else c.

Fixpoint toLowerCase (s : string) : string :=
  match s with
  | EmptyString => EmptyString
  | String c s' => String (lower_ascii c) (toLowerCase s')
  end.

(** [getHeader]: [headers.find(h => h.name.toLowerCase() === name.toLowerCase())?.value || ''] *)
Definition getHeader (hs : list Header) (name : string) : string :=
  match find (fun h => String.eqb (toLowerCase (hname h)) (toLowerCase name)) hs with
  | Some h => hvalue h
  | None => ""
  end.

Definition msg_headers (m : GmailMessage) : list Header :=
  match payload m with
  | Some p => match headers p with Some hs => hs | None => [] end
  | None => []
  end.

(** [message.payload?.body?.data], when truthy. *)
Definition flat_data (m : GmailMessage) : option string :=
  match payload m with Some p => truthy (payload_data p) | None => None end.

(** [message.payload?.parts] *)
Definition msg_parts (m : GmailMessage) : option (list Part) :=
  match payload m with Some p => parts p | None => None end.

(** [parts.find(p => p.mimeType === 'text/plain')] *)
Definition textPart (ps : list Part) : option Part :=
  find (fun p => String.eqb (mimeType p) "text/plain") ps.

(** The local [body] after the [if / else if] block. *)
Definition extract_body (x : Ext) (m : GmailMessage) : string :=
  match flat_data m with
  | Some d => b64decode x d
  | None =>
      match msg_parts m with
      | Some ps =>
          match textPart ps with
          | Some p => match truthy (part_data p) with
                      | Some d => b64decode x d
                      | None => ""
                      end
          | None => ""
          end
      | None => ""
      end
  end.

Definition extractEmailDetails (x : Ext) (m : GmailMessage) : EmailDetails :=
  let hs := msg_headers m in
  mkEmailDetails
    (or_empty (msg_id m))
    (or_empty (msg_threadId m))
    (getHeader hs "Subject")
    (getHeader hs "From")
    (getHeader hs "To")
    (getHeader hs "Date")
    (or_empty (msg_snippet m))
    (Some (substring 0 1000 (extract_body x m))).

(** ** [fetchNewEmails] *)

Definition is_digit (c : ascii) : bool :=
  let n := nat_of_ascii c in (Nat.leb 48 n && Nat.leb n 57)%bool.

Fixpoint all_digits (s : string) : bool :=
  match s with
  | EmptyString => true
  | String c s' => is_digit c && all_digits s'
  end.

(** [/^\d+$/.test(s)] *)
Definition digits_re (s : string) : bool :=
  match s with
  | EmptyString => false
  | _ => all_digits s
  end.

(** A Gmail API call: logged, then answered by the provider. *)
Definition gmail_call {A} (c : Call) (f : Ext -> Exn + A) : M A := fun w =>
  let w' := add_call c w in
  match f (ext w) with
  | inl e => (inl e, w')
  | inr a => (inr a, w')
  end.

(** [emails.push(e)] and reading [emails]. *)
Definition push_email (e : EmailDetails) : M unit :=
  modify (fun w => set_local (local_emails w ++ [e]) w).
Definition read_emails : M (list EmailDetails) := fun w => (inr (local_emails w), w).

(** [gmail.users.messages.get] followed by [extractEmailDetails] and push. *)
Definition fetch_message (mid : string) : M unit :=
  do m <- gmail_call (CMessagesGet mid) (fun x => gmail_get x mid);
  do x <- get_ext;
  push_email (extractEmailDetails x m).

(** [for (const added of record.messagesAdded)] *)
Fixpoint process_added (adds : list (option string)) : M unit :=
  match adds with
  | [] => ret tt
  | a :: rest =>
      match truthy a with
      | None => process_added rest                       (* continue *)
      | Some mid => do_ fetch_message mid; process_added rest
      end
  end.

(** [for (const record of history.data.history)] *)
Fixpoint process_history (hs : list HistoryRecord) : M unit :=
  match hs with
  | [] => ret tt
  | r :: rest =>
      do_ (match messagesAdded r with Some adds => process_added adds | None => ret tt end);
      process_history rest
  end.

(** Fallback: most recent unread INBOX message. *)
Definition fetch_latest : M (list EmailDetails) :=
  do lst <- gmail_call CMessagesList gmail_list_unread;
  match lst with
  | Some (m0 :: _) =>
      match truthy m0 with
      | Some mid => do_ fetch_message mid; read_emails
      | None => read_emails
      end
  | _ => read_emails
  end.

Definition fetchNewEmails (h : HistoryId) : M (list EmailDetails) :=
  do_ modify (set_local []);
  try_catch
    (let s := historyIdString h in
     if negb (digits_re s) then read_emails
     else
       do hist <- gmail_call (CHistoryList s) (fun x => gmail_history x s);
       match hist with
       | None | Some [] => fetch_latest
       | Some hs => do_ process_history hs; read_emails
       end)
    (fun _ => read_emails).

(** ** The webhook [POST] handler *)

(** [{...email, receivedAt, historyId}] *)
Definition toStored (e : EmailDetails) (recv : string) (h : HistoryId) : StoredEmail :=
  mkStoredEmail (ed_id e) (ed_threadId e) (ed_subject e) (ed_from e) (ed_to e)
    (ed_date e) (ed_snippet e) (ed_body e) recv h.

Definition testEmail (x : Ext) (t : Z) (n : GmailNotification) : StoredEmail :=
  mkStoredEmail
    ("test-" ++ pretty t)
    "test"
    "[Test] Pub/Sub Notification Test"
    "pubsub@test.com"
    (emailAddress n)
    (toISOString x t)
    ("Test notification with history ID: " ++ historyIdString (notif_historyId n))
    (Some "This is a test notification from Pub/Sub. Real emails will show full content.")
    (toISOString x t)
    (notif_historyId n).

Definition store_email (h : HistoryId) (e : EmailDetails) : M unit :=
  do w <- get_world;
  do_ addEmail (toStored e (toISOString (ext w) (now w)) h);
  ret tt.

Definition handle_notification (n : GmailNotification) : M unit :=
  let h := notif_historyId n in
  if String.prefix "test" (historyIdString h) then
    do w <- get_world;
    do_ addEmail (testEmail (ext w) (now w) n);
    ret tt
  else
    do newEmails <- fetchNewEmails h;
    forM_ newEmails (store_email h).

Definition ok200 : Response := mkResponse 200 "ok".

(** [req = None]: [request.json()] threw, or the body is [null]. *)
Definition POST (req : option PubSubMessage) : M Response :=
  try_catch
    (do body <- (match req with Some b => ret b | None => throw RequestError end);
     do_ (match message body with
          | Some msg =>
              match truthy (data msg) with
              | Some d =>
                  do x <- get_ext;
                  let decodedData := b64decode x d in
                  try_catch
                    (match json_parse x decodedData with
                     | Some n => handle_notification n
                     | None => throw ParseError
                     end)
                    (fun _ => ret tt)
              | None => ret tt
              end
          | None => ret tt
          end);
     ret ok200)
    (fun _ => ret ok200).

(** ** Drivers and helpers used to state properties *)

(** A run of inserts, with [d] ms passing before each [addEmail]. *)
Fixpoint insert_all (rs : list (N * StoredEmail)) : M unit :=
  match rs with
  | [] => ret tt
  | (d, e) :: rs' => do_ advance d; do_ addEmail e; insert_all rs'
  end.

(** Time of the [i]-th insert of a run that starts at [t0]. *)
Definition insert_time (t0 : Z) (rs : list (N * StoredEmail)) (i : nat) : Z :=
  t0 + fold_right (fun p acc => Z.of_N (fst p) + acc) 0 (firstn (S i) rs).

(** Ids of the messages named by the history entries, in loop order. *)
Fixpoint truthy_ids (adds : list (option string)) : list string :=
  match adds with
  | [] => []
  | a :: rest => match truthy a with
                 | Some mid => mid :: truthy_ids rest
                 | None => truthy_ids rest
                 end
  end.

Definition added_ids (hs : list HistoryRecord) : list string :=
  concat (map (fun r => match messagesAdded r with
                        | Some adds => truthy_ids adds
                        | None => []
                        end) hs).

(** The data of the first [text/plain] part, when truthy. *)
Definition text_part_data (m : GmailMessage) : option string :=
  match msg_parts m with
  | Some ps => match textPart ps with
               | Some p => truthy (part_data p)
               | None => None
               end
  | None => None
  end.

(** [s.includes(sub)] *)
Definition includes (s sub : string) : bool :=
  match String.index 0 sub s with Some _ => true | None => false end.

(** *** Concrete inputs *)

Definition sampleExt : Ext :=
  mkExt (fun t => pretty t) (fun s => s) (fun _ => None)
        (fun _ => inr None) (inr None) (fun _ => inl ProviderError).

Definition mkRec (i subj : string) : StoredEmail :=
  mkStoredEmail i "t" subj "f" "to" "d" "s" None "r" (HStr "1").

Definition startWorld (x : Ext) (s : Store) : World := mkWorld x s 0 [] [] [].

(** [old] first, then 100 records that all reuse one id [i]. *)
Definition evictRun (old : StoredEmail) (i : string) : list (N * StoredEmail) :=
  (0%N, old) :: replicate 100 (0%N, mkRec i "new").

(** A provider whose history names two messages; fetching the second fails. *)
Definition msgA : GmailMessage :=
  mkGmailMessage (Some "m1") (Some "t1")
    (Some (mkPayload (Some [mkHeader "Subject" "hello"]) (Some "hi") None)) (Some "sn").

Definition flakyExt : Ext :=
  mkExt (fun t => pretty t) (fun s => s) (fun _ => Some (mkGmailNotification "me" (HStr "7")))
        (fun _ => inr (Some [mkHistoryRecord (Some [Some "m1"; Some "m2"])]))
        (inr None)
        (fun mid => if String.eqb mid "m1" then inr msgA else inl ProviderError).

Definition testNotification : GmailNotification := mkGmailNotification "me" (HStr "test-123").

Definition testExt : Ext :=
  mkExt (fun t => pretty t) (fun s => s) (fun _ => Some testNotification)
        (fun _ => inr None) (inr None) (fun _ => inl ProviderError).

Definition envelope (d : string) : PubSubMessage :=
  mkPubSubMessage (Some (mkPubSubInner (Some d) "1" "p")) "sub".

(** A string of [n] copies of [c]. *)
Fixpoint rep_char (n : nat) (c : ascii) : string :=
  match n with O => EmptyString | S n' => String c (rep_char n' c) end.
(** Messages used as concrete inputs for the extractor. *)
Definition msgNoBody : GmailMessage := mkGmailMessage (Some "m0") None None None.
Definition msgLong : GmailMessage :=
  mkGmailMessage (Some "m5") None
    (Some (mkPayload None None (Some [mkPart "text/html" (Some "x"); mkPart "text/plain" (Some (rep_char 5000 "a"))]))) None.
Definition msgUpperMime : GmailMessage :=
  mkGmailMessage (Some "m6") None
    (Some (mkPayload (Some [mkHeader "SUBJECT" "Hi"]) None (Some [mkPart "Text/Plain" (Some "aGk=")]))) None.


(** A provider whose history names [m1], which is fetched. *)
Definition okExt : Ext :=
  mkExt (fun t => pretty t) (fun s => s) (fun _ => Some (mkGmailNotification "me" (HStr "7")))
        (fun _ => inr (Some [mkHistoryRecord (Some [Some "m1"])]))
        (inr None)
        (fun _ => inr msgA).

(** A provider with an empty history and one unread message [m1]. *)
Definition fallbackExt : Ext :=
  mkExt (fun t => pretty t) (fun s => s) (fun _ => Some (mkGmailNotification "me" (HStr "7")))
        (fun _ => inr None)
        (inr (Some [Some "m1"]))
        (fun _ => inr msgA).

(** A notification whose cursor is just ["test"]. *)
Definition plainTestExt : Ext :=
  mkExt (fun t => pretty t) (fun s => s) (fun _ => Some (mkGmailNotification "me" (HStr "test")))
        (fun _ => inr None) (inr None) (fun _ => inl ProviderError).

(** The store after a successful [addEmail]. *)
Definition after_add (e : StoredEmail) (w : World) : Store :=
  mkStore (firstn 100 (e :: emails (store w)))
          (<[id e := (e, now w + emailTTL * 1000)]> (byId (store w)))
          (Some (toISOString (ext w) (now w), now w + emailTTL * 1000)).

(** Total time passing during a run of inserts. *)
Definition delays (rs : list (N * StoredEmail)) : Z :=
  fold_right (fun p acc => Z.of_N (fst p) + acc) 0 rs.

(** [m] leaves the backend, the clock, the fault stream and the
    environment as they are (it may log calls and use [emails]). *)
Definition keeps (w w' : World) : Prop :=
  store w' = store w /\ now w' = now w /\ faults w' = faults w /\ ext w' = ext w.

Definition Frame {A} (m : M A) : Prop := forall w r w', m w = (r, w') -> keeps w w'.

(** ** The in-memory [EmailStore] (lib/email-store.ts) *)

Module MemStore.

Definition maxEmails : nat := 100.

(** [Array.prototype.slice(0, end)] *)
Definition slice0 {A} (l : list A) (e : Z) : list A :=
  let len := Z.of_nat (length l) in
  let fin := if e <? 0 then Z.max (len + e) 0 else Z.min e len in
  firstn (Z.to_nat fin) l.

(** [unshift], then [slice(0, maxEmails)] when the array is too long. *)
Definition addEmail (email : StoredEmail) (es : list StoredEmail) : list StoredEmail :=
  let es1 := email :: es in
  if Nat.ltb maxEmails (length es1) then slice0 es1 (Z.of_nat maxEmails) else es1.

Definition getEmails (limit : Z) (es : list StoredEmail) : list StoredEmail :=
  slice0 es limit.

(** [this.emails.find(e => e.id === id)] *)
Definition getEmail (i : string) (es : list StoredEmail) : option StoredEmail :=
  find (fun e => String.eqb (id e) i) es.

Record MemStats := mkMemStats {
  m_totalEmails : nat;
  m_oldestEmail : option string;
  m_newestEmail : option string;
  m_lastReceived : option string
}.

Definition getStats (es : list StoredEmail) : MemStats :=
  mkMemStats (length es) (option_map date (last es)) (option_map date (head es))
             (option_map receivedAt (head es)).

Definition clear (es : list StoredEmail) : list StoredEmail := [].

End MemStore.

(** ** [parseInt] (one argument) on ASCII text *)

(** [StrWhiteSpaceChar] restricted to ASCII. *)
Definition js_space (c : ascii) : bool :=
  let n := nat_of_ascii c in (Nat.eqb n 32 || (Nat.leb 9 n && Nat.leb n 13))%bool.

Fixpoint trim_start (s : string) : string :=
  match s with
  | String c s' => if js_space c then trim_start s' else s
  | EmptyString => EmptyString
  end.

Definition digit_val (radix : Z) (c : ascii) : option Z :=
  let n := Z.of_nat (nat_of_ascii c) in
  let v := if (48 <=? n) && (n <=? 57) then Some (n - 48)
           else if (97 <=? n) && (n <=? 122) then Some (n - 87)
           else if (65 <=? n) && (n <=? 90) then Some (n - 55)
           else None in
  match v with Some d => if d <? radix then Some d else None | None => None end.

(** The value of the longest prefix of digits; [None] when it is empty. *)
Fixpoint digits_prefix (radix acc : Z) (seen : bool) (s : string) : option Z :=
  match s with
  | String c s' =>
      match digit_val radix c with
      | Some d => digits_prefix radix (acc * radix + d) true s'
      | None => if seen then Some acc else None
      end
  | EmptyString => if seen then Some acc else None
  end.

(** [None] is [NaN]; the value is exact (not rounded to a double). *)
Definition parseInt (s : string) : option Z :=
  let s1 := trim_start s in
  let '(sign, s2) :=
    match s1 with
    | String c r => if Ascii.eqb c "-" then (-1, r)
                    else if Ascii.eqb c "+" then (1, r) else (1, s1)
    | EmptyString => (1, s1)
    end in
  let '(radix, s3) :=
    match s2 with
    | String c0 (String c1 r) =>
        if Ascii.eqb c0 "0" && (Ascii.eqb c1 "x" || Ascii.eqb c1 "X")
        then (16, r) else (10, s2)
    | _ => (10, s2)
    end in
  option_map (Z.mul sign) (digits_prefix radix 0 false s3).

(** ** The routes over the store (app/api/emails, app/api/cleanup) *)

Record EmailsGetResponse := mkEmailsGetResponse {
  eg_status : Z;
  eg_emails : list StoredEmail;
  eg_stats : Stats
}.

(** [GET /api/emails].  [nan_reply] is the backend's answer to
    [LRANGE key 0 NaN], sent by [getEmails(NaN)] when [limit] does not parse. *)
Definition emails_GET (nan_reply : Store -> list StoredEmail) (limit_param : option string)
  : M EmailsGetResponse :=
  try_catch
    (let limit := parseInt (match truthy limit_param with Some v => v | None => "50" end) in
     do es <- (match limit with
               | Some n => getEmails n
               | None => try_catch (redis (fun _ s => (nan_reply s, s))) (fun _ => ret [])
               end);
     do stats <- getStats;
     ret (mkEmailsGetResponse 200 es stats))
    (fun _ => ret (mkEmailsGetResponse 500 [] (mkStats 0 None None None))).

Record SuccessResponse := mkSuccessResponse { sr_status : Z; sr_success : bool }.

(** [DELETE /api/emails] *)
Definition emails_DELETE : M SuccessResponse :=
  try_catch
    (do success <- clear; ret (mkSuccessResponse 200 success))
    (fun _ => ret (mkSuccessResponse 500 false)).

(** The filter of [POST /api/cleanup]. *)
Definition isTestEmail (e : StoredEmail) : bool :=
  String.prefix "test-" (id e) || includes (from e) "test@" || includes (subject e) "[Test]".

Record CleanupReport := mkCleanupReport {
  cr_status : Z;
  cr_success : bool;
  cr_totalEmails : nat;
  cr_testEmails : nat;
  cr_realEmails : Z
}.

(** [POST /api/cleanup] *)
Definition cleanup_POST : M CleanupReport :=
  try_catch
    (do es <- getEmails 100;
     let testEmails := filter isTestEmail es in
     ret (mkCleanupReport 200 true (length es) (length testEmails)
            (Z.of_nat (length es) - Z.of_nat (length testEmails))))
    (fun _ => ret (mkCleanupReport 500 false 0 0 0)).

(** [DELETE /api/cleanup] *)
Definition cleanup_DELETE : M SuccessResponse :=
  try_catch
    (do_ clear; ret (mkSuccessResponse 200 true))
    (fun _ => ret (mkSuccessResponse 500 false)).

(** ** Dashboard helpers (app/dashboard/page.tsx) *)

(** [filteredEmails] for the query [searchQuery]. *)
Definition filteredEmails (searchQuery : string) (es : list StoredEmail) : list StoredEmail :=
  if String.eqb searchQuery "" then es
  else
    let query := toLowerCase searchQuery in
    filter (fun email =>
              includes (toLowerCase (subject email)) query ||
              includes (toLowerCase (from email)) query ||
              includes (toLowerCase (snippet email)) query ||
              match truthy (body email) with
              | Some b => includes (toLowerCase b) query
              | None => false
              end) es.

(** [formatDate] from [diffMs = now.getTime() - date.getTime()] of a valid
    date; [None] is the [toLocaleDateString] branch. *)
Definition formatDate_rel (diffMs : Z) : option string :=
  let diffMins := diffMs / 60000 in
  let diffHours := diffMins / 60 in
  let diffDays := diffHours / 24 in
  if diffMins <? 1 then Some "now"
  else if diffMins <? 60 then Some (pretty diffMins ++ "m")%string
  else if diffHours <? 24 then Some (pretty diffHours ++ "h")%string
  else if diffDays <? 7 then Some (pretty diffDays ++ "d")%string
  else None.

(** ** Auxiliary definitions for the properties below *)

Definition lastReceived_value (w : World) : option string :=
  match lastReceived (store w) with
  | Some (v, d) => if alive (now w) d then (if String.eqb v "" then None else Some v) else None
  | None => None
  end.

Definition NoThrow {A} (m : M A) (P : A -> Prop) : Prop :=
  forall w, exists a w', m w = (inr a, w') /\ P a.

Definition oneStore : Store :=
  mkStore [mkRec "a" "s"] (<["a" := (mkRec "a" "s", 5)]> ∅) None.

(** ** Generic lemmas on the monad and on lists *)

Lemma bind_normal {A B} (m : M A) (k : A -> M B) (r : B) w b w' :
  (forall a w1 b1 w1', k a w1 = (inr b1, w1') -> b1 = r) ->
  bind m k w = (inr b, w') -> b = r.
Proof.
  intros Hk. unfold bind. destruct (m w) as [[e|a] w1]; [discriminate|].
  apply Hk.
Qed.

Lemma firstn_app_firstn {A} (n : nat) (l1 l2 : list A) :
  firstn n (l1 ++ firstn n l2) = firstn n (l1 ++ l2).
Proof.
  rewrite !firstn_app, firstn_firstn.
  f_equal. f_equal. lia.
Qed.

(** Turn the boolean comparisons on [Z] in the context into [lia] facts. *)
Ltac zbool :=
  repeat match goal with
  | H : (_ <? _) = true |- _ => apply Z.ltb_lt in H
  | H : (_ <? _) = false |- _ => apply Z.ltb_ge in H
  | H : (_ <=? _) = true |- _ => apply Z.leb_le in H
  | H : (_ <=? _) = false |- _ => apply Z.leb_gt in H
  | H : (_ >? _) = true |- _ => rewrite Z.gtb_ltb in H
  | H : (_ >? _) = false |- _ => rewrite Z.gtb_ltb in H
  | H : (_ >=? _) = true |- _ => rewrite Z.geb_leb in H
  | H : (_ >=? _) = false |- _ => rewrite Z.geb_leb in H
  end.

Lemma lrange_prefix {A} (l : list A) (n : Z) :
  1 <= n -> lrange l 0 (n - 1) = firstn (Z.to_nat n) l.
Proof.
  intros Hn. unfold lrange.
  replace (0 <? 0) with false by reflexivity.
  destruct (n - 1 <? 0) eqn:E1; zbool; [lia|].
  replace (0 <? 0) with false by reflexivity.
  destruct (0 >? n - 1) eqn:E2; zbool; [lia|]. simpl orb.
  destruct (0 >=? Z.of_nat (length l)) eqn:E3; zbool.
  - destruct l; [by rewrite firstn_nil| simpl in E3; lia].
  - rewrite skipn_O.
    destruct (n - 1 >=? Z.of_nat (length l)) eqn:E4; zbool.
    + rewrite !firstn_all2; [done| lia | lia].
    + f_equal. lia.
Qed.

Arguments lrange : simpl never.

(** ** The store when every backend command succeeds *)

Lemma addEmail_ok (e : StoredEmail) (w : World) :
  faults w = [] ->
  addEmail e w = (inr true, set_store (after_add e w) w).
Proof.
  destruct w as [x [es bi lr] t f c l]; simpl; intros ->.
  unfold after_add.
  cbv [addEmail try_catch bind r_lpush r_ltrim r_set_email updateStats get_world
       redis ret set_faults set_store]; simpl.
  pose proof (lrange_prefix (e :: es) 100 ltac:(lia)) as Hr.
  change (100 - 1) with 99 in Hr. unfold maxEmails. change (100 - 1) with 99.
  rewrite Hr. reflexivity.
Qed.

Lemma insert_all_cons (d : N) (e : StoredEmail) (rs : list (N * StoredEmail)) (w : World) :
  faults w = [] ->
  insert_all ((d, e) :: rs) w =
  insert_all rs (let w1 := set_now (now w + Z.of_N d) w in set_store (after_add e w1) w1).
Proof.
  intros Hf. simpl. unfold bind at 1, advance, modify. simpl.
  unfold bind at 1. rewrite addEmail_ok by (destruct w; simpl in *; done).
  reflexivity.
Qed.

Lemma insert_all_world (rs : list (N * StoredEmail)) (w : World) :
  faults w = [] ->
  fst (insert_all rs w) = inr tt /\
  faults (snd (insert_all rs w)) = [] /\
  ext (snd (insert_all rs w)) = ext w /\
  calls (snd (insert_all rs w)) = calls w /\
  now (snd (insert_all rs w)) = now w + delays rs.
Proof.
  revert w. induction rs as [|[d e] rs IH]; intros w Hf.
  - simpl. repeat split; auto. lia.
  - rewrite insert_all_cons by done.
    destruct (IH (let w1 := set_now (now w + Z.of_N d) w in set_store (after_add e w1) w1))
      as (H1 & H2 & H3 & H4 & H5); [destruct w; simpl in *; done|].
    rewrite H1, H2, H3, H4, H5. destruct w; simpl. repeat split; auto. lia.
Qed.

Lemma insert_all_emails (rs : list (N * StoredEmail)) (w : World) :
  faults w = [] -> rs <> [] ->
  emails (store (snd (insert_all rs w))) = firstn 100 (rev (map snd rs) ++ emails (store w)).
Proof.
  revert w. induction rs as [|[d e] rs IH]; intros w Hf Hne; [done|].
  rewrite insert_all_cons by done.
  destruct rs as [|p rs'].
  - simpl. destruct w; reflexivity.
  - rewrite IH; [| destruct w; simpl in *; done | done].
    destruct w; simpl.
    change (e :: take 99 (emails store0)) with (take 100 ([e] ++ emails store0)).
    replace (rev (map snd rs') ++ p.2 :: take 100 ([e] ++ emails store0))
      with ((rev (map snd rs') ++ [p.2]) ++ take 100 ([e] ++ emails store0))
      by (rewrite <- app_assoc; reflexivity).
    rewrite firstn_app_firstn, <- !app_assoc. reflexivity.
Qed.

Lemma insert_all_byId_other (rs : list (N * StoredEmail)) (w : World) (key : string) :
  faults w = [] -> (forall d r, (d, r) ∈ rs -> id r <> key) ->
  byId (store (snd (insert_all rs w))) !! key = byId (store w) !! key.
Proof.
  revert w. induction rs as [|[d e] rs IH]; intros w Hf Hk; [done|].
  rewrite insert_all_cons by done.
  rewrite IH.
  - destruct w; simpl. rewrite lookup_insert_ne; [done|].
    apply (Hk d). constructor.
  - destruct w; simpl in *; done.
  - intros d' r' Hin. apply (Hk d'). by constructor.
Qed.

Lemma insert_all_byId (rs : list (N * StoredEmail)) (w : World) (i : nat) (d : N) (r : StoredEmail) :
  faults w = [] -> rs !! i = Some (d, r) ->
  (forall j d' r', (i < j)%nat -> rs !! j = Some (d', r') -> id r' <> id r) ->
  byId (store (snd (insert_all rs w))) !! id r =
  Some (r, insert_time (now w) rs i + emailTTL * 1000).
Proof.
  revert w i. induction rs as [|[d0 e] rs IH]; intros w i Hf Hi Hlater; [done|].
  rewrite insert_all_cons by done.
  destruct i as [|i].
  - simpl in Hi. injection Hi as <- <-.
    rewrite insert_all_byId_other.
    + destruct w; simpl. rewrite lookup_insert_eq. unfold insert_time. simpl.
      do 3 f_equal. lia.
    + destruct w; simpl in *; done.
    + intros d' r' Hin. apply list_elem_of_lookup in Hin as [j Hj].
      apply (Hlater (S j) d' r'); [lia | done].
  - simpl in Hi. rewrite (IH _ i); [| destruct w; simpl in *; done | done |].
    + destruct w; unfold insert_time; simpl. do 3 f_equal. lia.
    + intros j d' r' Hij Hj. apply (Hlater (S j) d' r'); [lia | done].
Qed.

(** ** C1: inserting past the cap *)

(** C1 (as stated, refuted).  Claim: after N+k inserts every one of the k
    position-evicted records stays fetchable by id until its 30-day TTL
    elapses.  Inserting [old] and then 100 records reusing its id ["a"]
    (k = 1), no time passing: [old] is evicted, its TTL has not elapsed,
    yet [getEmail "a"] returns the later record, because [addEmail]
    overwrites the per-id key. *)
Lemma C1_id_reuse_counterexample :
  let rs := evictRun (mkRec "a" "old") "a" in
  let w' := snd (insert_all rs (startWorld sampleExt emptyStore)) in
  length rs = (100 + 1)%nat /\
  rs !! 0%nat = Some (0%N, mkRec "a" "old") /\
  fst (getEmails maxEmails w') = inr (replicate 100 (mkRec "a" "new")) /\
  now w' <= insert_time 0 rs 0 + emailTTL * 1000 /\
  fst (getEmail "a" w') = inr (Some (mkRec "a" "new")) /\
  mkRec "a" "new" <> mkRec "a" "old".
Proof.
  vm_compute. repeat split; try reflexivity; discriminate.
Qed.

Lemma getEmails_ok (limit : Z) (w : World) :
  faults w = [] -> 1 <= limit ->
  fst (getEmails limit w) = inr (firstn (Z.to_nat limit) (emails (store w))).
Proof.
  destruct w as [x [es bi lr] t f c l]; simpl; intros -> Hl.
  cbv [getEmails try_catch r_lrange redis]; simpl.
  rewrite lrange_prefix by done. reflexivity.
Qed.

Lemma getEmail_ok (i : string) (w : World) :
  faults w = [] ->
  fst (getEmail i w) =
  inr (match byId (store w) !! i with
       | Some (e, d) => if alive (now w) d then Some e else None
       | None => None
       end).
Proof.
  destruct w as [x [es bi lr] t f c l]; simpl; intros ->. reflexivity.
Qed.

(** C1 (amended).  When every backend command succeeds, inserting N+k
    records (N = 100, k > 0) into any store leaves exactly the N newest
    records in [getEmails N], newest first; and each of the k evicted
    records (the first k inserted) is returned by [getEmail] until 30 days
    after its own insert, provided no later insert of the run reuses its id;
    an earlier record whose id a later insert reuses is no longer returned:
    [getEmail] gives the last record inserted with that id, until 30 days
    after that insert. *)
Theorem C1_bounded_store_insert (w : World) (rs : list (N * StoredEmail)) (k : nat) :
  faults w = [] -> (0 < k)%nat -> length rs = (100 + k)%nat ->
  let w' := snd (insert_all rs w) in
  fst (getEmails maxEmails w') = inr (firstn 100 (rev (map snd rs))) /\
  length (firstn 100 (rev (map snd rs))) = 100%nat /\
  (forall (i : nat) (d : N) (r : StoredEmail) (wait : N),
     (i < k)%nat -> rs !! i = Some (d, r) ->
     (forall j d' r', (i < j)%nat -> rs !! j = Some (d', r') -> id r' <> id r) ->
     now w' + Z.of_N wait <= insert_time (now w) rs i + emailTTL * 1000 ->
     fst (getEmail (id r) (snd (advance wait w'))) = inr (Some r)) /\
  (forall (i0 i : nat) (d0 d : N) (r0 r : StoredEmail) (wait : N),
     (i0 < i)%nat -> rs !! i0 = Some (d0, r0) -> rs !! i = Some (d, r) -> id r = id r0 ->
     (forall j d' r', (i < j)%nat -> rs !! j = Some (d', r') -> id r' <> id r) ->
     now w' + Z.of_N wait <= insert_time (now w) rs i + emailTTL * 1000 ->
     fst (getEmail (id r0) (snd (advance wait w'))) = inr (Some r)).
Proof.
  intros Hf Hk Hlen w'. subst w'.
  destruct (insert_all_world rs w Hf) as (_ & Hf' & _ & _ & _).
  assert (Hlr : length (rev (map snd rs)) = (100 + k)%nat)
    by (rewrite length_rev, length_map; done).
  assert (Hget : forall (i : nat) (d : N) (r : StoredEmail) (wait : N),
     rs !! i = Some (d, r) ->
     (forall j d' r', (i < j)%nat -> rs !! j = Some (d', r') -> id r' <> id r) ->
     now (snd (insert_all rs w)) + Z.of_N wait <= insert_time (now w) rs i + emailTTL * 1000 ->
     fst (getEmail (id r) (snd (advance wait (snd (insert_all rs w))))) = inr (Some r)).
  { intros i d r wait Hri Hlater Ht.
    rewrite getEmail_ok by (unfold advance, modify; simpl; exact Hf').
    assert (Hb : byId (store (snd (advance wait (snd (insert_all rs w))))) !! id r =
                 Some (r, insert_time (now w) rs i + emailTTL * 1000)).
    { unfold advance, modify. simpl. apply (insert_all_byId rs w i d r Hf Hri Hlater). }
    rewrite Hb. unfold alive. simpl.
    replace (now (snd (insert_all rs w)) + Z.of_N wait <=? insert_time (now w) rs i + emailTTL * 1000) with true
      by (symmetry; apply Z.leb_le; done).
    reflexivity. }
  split; [|split; [|split]].
  - rewrite getEmails_ok by (done || unfold maxEmails; lia).
    rewrite insert_all_emails by (done || (intros ->; simpl in Hlen; lia)).
    unfold maxEmails. change (Z.to_nat 100) with 100%nat.
    rewrite firstn_firstn, Nat.min_id, firstn_app, (proj2 (Nat.sub_0_le _ _)) by lia.
    rewrite app_nil_r. reflexivity.
  - rewrite length_firstn. lia.
  - intros i d r wait _ Hri Hlater Ht. exact (Hget i d r wait Hri Hlater Ht).
  - intros i0 i d0 d r0 r wait _ _ Hri Hid Hlater Ht.
    rewrite <- Hid. exact (Hget i d r wait Hri Hlater Ht).
Qed.

(** Witness of [C1_bounded_store_insert]: 101 inserts, the first one evicted. *)
Lemma C1_bounded_store_insert_witness :
  let w := startWorld sampleExt emptyStore in
  let rs := evictRun (mkRec "old" "old") "new" in
  faults w = [] /\ (0 < 1)%nat /\ length rs = (100 + 1)%nat /\
  fst (getEmail "old" (snd (advance 0 (snd (insert_all rs w))))) = inr (Some (mkRec "old" "old")).
Proof.
  split; [reflexivity|]. split; [lia|]. split; [reflexivity|].
  destruct (C1_bounded_store_insert (startWorld sampleExt emptyStore)
              (evictRun (mkRec "old" "old") "new") 1 eq_refl ltac:(lia) eq_refl)
    as (_ & _ & H & _).
  apply (H 0%nat 0%N (mkRec "old" "old") 0%N).
  - lia.
  - reflexivity.
  - intros [|j] d' r' Hj Hr; [lia|].
    apply lookup_replicate_1 in Hr as [Hr _]. injection Hr as _ Hr.
    subst r'. simpl. discriminate.
  - vm_compute. discriminate.
Defined.

(** ** C2: the webhook always acknowledges *)

(** C2.  For every request (including a body that fails to parse, a
    notification that fails to decode, provider failures and backend
    failures anywhere in the fault stream), [POST] returns the response
    [{status: 'ok'}] with HTTP status 200 and never throws. *)
Theorem C2_webhook_always_acknowledges (req : option PubSubMessage) (w : World) :
  fst (POST req w) = inr ok200 /\ http_status ok200 = 200.
Proof.
  split; [|reflexivity].
  unfold POST, try_catch.
  destruct (bind _ _ w) as [[e|b] w'] eqn:E; [reflexivity|].
  simpl. f_equal.
  refine (bind_normal _ _ ok200 w b w' _ E).
  intros a w1 b1 w1' Hk.
  refine (bind_normal _ _ ok200 w1 b1 w1' _ Hk).
  intros u w2 b2 w2' Hr. unfold ret in Hr. congruence.
Qed.

(** ** C3: [clear] *)

(** C3 (code defect, evaluated).  [clear] collects the ids to delete from
    the list ['gmail:emails'] only, so a record already evicted from the
    list keeps its per-id key: after inserting ["old"] and then 100
    records with id ["new"], [clear] succeeds and empties the list and
    the last-received key, but [getEmail "old"] still returns the record. *)
Lemma C3_clear_keeps_evicted_entry :
  let w1 := snd (insert_all (evictRun (mkRec "old" "old") "new")
                            (startWorld sampleExt emptyStore)) in
  let w2 := snd (clear w1) in
  fst (clear w1) = inr true /\
  emails (store w2) = [] /\
  lastReceived (store w2) = None /\
  fst (getEmail "old" w2) = inr (Some (mkRec "old" "old")).
Proof.
  vm_compute. repeat split; reflexivity.
Qed.

(** ** Reconciliation does not touch the store *)

Create HintDb frame.

Lemma keeps_refl w : keeps w w.
Proof. repeat split. Qed.

Lemma keeps_trans w1 w2 w3 : keeps w1 w2 -> keeps w2 w3 -> keeps w1 w3.
Proof. unfold keeps. intuition congruence. Qed.

Lemma Frame_ret {A} (a : A) : Frame (ret a).
Proof. intros w r w' H. injection H as _ <-. apply keeps_refl. Qed.

Lemma Frame_bind {A B} (m : M A) (k : A -> M B) :
  Frame m -> (forall a, Frame (k a)) -> Frame (bind m k).
Proof.
  intros Hm Hk w r w' H. unfold bind in H.
  destruct (m w) as [[e|a] w1] eqn:E.
  - injection H as _ <-. eapply Hm; eauto.
  - eapply keeps_trans; [eapply Hm; eauto | eapply Hk; eauto].
Qed.

Lemma Frame_try {A} (m : M A) (h : Exn -> M A) :
  Frame m -> (forall e, Frame (h e)) -> Frame (try_catch m h).
Proof.
  intros Hm Hh w r w' H. unfold try_catch in H.
  destruct (m w) as [[e|a] w1] eqn:E.
  - eapply keeps_trans; [eapply Hm; eauto | eapply Hh; eauto].
  - injection H as _ <-. eapply Hm; eauto.
Qed.

Lemma Frame_gmail_call {A} c (f : Ext -> Exn + A) : Frame (gmail_call c f).
Proof.
  intros w r w' H. unfold gmail_call in H.
  destruct (f (ext w)); injection H as _ <-; destruct w; repeat split.
Qed.

Lemma Frame_read : Frame read_emails.
Proof. intros w r w' H. injection H as _ <-. apply keeps_refl. Qed.

Lemma Frame_get_ext : Frame get_ext.
Proof. intros w r w' H. injection H as _ <-. apply keeps_refl. Qed.

Lemma Frame_push e : Frame (push_email e).
Proof. intros w r w' H. injection H as _ <-. destruct w; repeat split. Qed.

Lemma Frame_set_local_nil : Frame (modify (set_local [])).
Proof. intros w r w' H. injection H as _ <-. destruct w; repeat split. Qed.

Global Hint Resolve Frame_ret Frame_bind Frame_try Frame_gmail_call Frame_read
  Frame_get_ext Frame_push Frame_set_local_nil : frame.

Lemma Frame_fetch_message mid : Frame (fetch_message mid).
Proof. unfold fetch_message. eauto with frame. Qed.
Global Hint Resolve Frame_fetch_message : frame.

Lemma Frame_process_added adds : Frame (process_added adds).
Proof.
  induction adds as [|a rest IH]; simpl; [eauto with frame|].
  destruct (truthy a); eauto with frame.
Qed.
Global Hint Resolve Frame_process_added : frame.

Lemma Frame_process_history hs : Frame (process_history hs).
Proof.
  induction hs as [|r rest IH]; simpl; [eauto with frame|].
  apply Frame_bind; [destruct (messagesAdded r)|]; eauto with frame.
Qed.
Global Hint Resolve Frame_process_history : frame.

Lemma Frame_fetch_latest : Frame fetch_latest.
Proof.
  unfold fetch_latest. apply Frame_bind; [eauto with frame|].
  intros [[|m0 rest]|]; [eauto with frame| |eauto with frame].
  destruct (truthy m0); eauto with frame.
Qed.
Global Hint Resolve Frame_fetch_latest : frame.

Lemma Frame_fetchNewEmails h : Frame (fetchNewEmails h).
Proof.
  unfold fetchNewEmails. apply Frame_bind; [eauto with frame|]. intros _.
  apply Frame_try; [|eauto with frame].
  destruct (negb (digits_re (historyIdString h))); [eauto with frame|].
  apply Frame_bind; [eauto with frame|].
  intros [[|r rs]|]; eauto with frame.
Qed.

(** ** The history loop as one loop over the added message ids *)

Lemma process_added_forM (adds : list (option string)) (w : World) :
  process_added adds w = forM_ (truthy_ids adds) fetch_message w.
Proof.
  revert w. induction adds as [|a rest IH]; intros w; [reflexivity|].
  simpl. destruct (truthy a); [|apply IH].
  simpl. unfold bind. destruct (fetch_message s w) as [[e|u] w1]; [reflexivity|].
  apply IH.
Qed.

Lemma forM_app {A} (l1 l2 : list A) (f : A -> M unit) (w : World) :
  forM_ (l1 ++ l2) f w = bind (forM_ l1 f) (fun _ => forM_ l2 f) w.
Proof.
  revert w. induction l1 as [|x l1 IH]; intros w; [reflexivity|].
  simpl. unfold bind. destruct (f x w) as [[e|u] w1]; [reflexivity|].
  rewrite IH. reflexivity.
Qed.

Lemma process_history_forM (hs : list HistoryRecord) (w : World) :
  process_history hs w = forM_ (added_ids hs) fetch_message w.
Proof.
  revert w. induction hs as [|r rest IH]; intros w; [reflexivity|].
  unfold added_ids. simpl. fold (added_ids rest).
  rewrite forM_app. unfold bind.
  destruct (messagesAdded r) as [adds|].
  - rewrite process_added_forM.
    destruct (forM_ (truthy_ids adds) fetch_message w) as [[e|u] w1]; [reflexivity|].
    apply IH.
  - apply IH.
Qed.

Lemma fetch_message_ok (mid : string) (msg : GmailMessage) (w : World) :
  gmail_get (ext w) mid = inr msg ->
  fetch_message mid w =
  (inr tt, set_local (local_emails w ++ [extractEmailDetails (ext w) msg])
                     (add_call (CMessagesGet mid) w)).
Proof.
  intros H. unfold fetch_message, gmail_call, bind. rewrite H. reflexivity.
Qed.

Lemma fetch_message_fail (mid : string) (e : Exn) (w : World) :
  gmail_get (ext w) mid = inl e ->
  fetch_message mid w = (inl e, add_call (CMessagesGet mid) w).
Proof.
  intros H. unfold fetch_message, gmail_call, bind. rewrite H. reflexivity.
Qed.

Lemma forM_fetch_fail (x : Ext) (pre post : list string) (msgs : list GmailMessage)
      (m : string) (e : Exn) (w : World) :
  ext w = x ->
  Forall2 (fun mid msg => gmail_get x mid = inr msg) pre msgs ->
  gmail_get x m = inl e ->
  exists w', forM_ (pre ++ m :: post) fetch_message w = (inl e, w') /\
             local_emails w' = local_emails w ++ map (extractEmailDetails x) msgs.
Proof.
  intros Hx Hpre Hm. revert w Hx.
  induction Hpre as [|mid msg pre' msgs' Hg Hpre' IH]; intros w Hx.
  - simpl. unfold bind. rewrite (fetch_message_fail m e) by congruence.
    eexists. split; [reflexivity|]. rewrite app_nil_r. destruct w; reflexivity.
  - simpl. unfold bind at 1. rewrite (fetch_message_ok mid msg) by congruence.
    destruct (IH (set_local (local_emails w ++ [extractEmailDetails (ext w) msg])
                            (add_call (CMessagesGet mid) w)))
      as (w' & Hrun & Hloc); [destruct w; simpl in *; done|].
    exists w'. split; [exact Hrun|]. rewrite Hloc. destruct w; simpl in *. subst.
    rewrite <- app_assoc. reflexivity.
Qed.

(** ** Storing the reconciled messages *)

Lemma store_email_ok (h : HistoryId) (e : EmailDetails) (w : World) :
  faults w = [] ->
  store_email h e w =
  (inr tt, set_store (after_add (toStored e (toISOString (ext w) (now w)) h) w) w).
Proof.
  intros Hf. unfold store_email, bind at 1, get_world.
  unfold bind. rewrite addEmail_ok by done. reflexivity.
Qed.

Lemma store_loop (h : HistoryId) (l : list EmailDetails) (w : World) :
  faults w = [] ->
  fst (forM_ l (store_email h) w) = inr tt /\
  faults (snd (forM_ l (store_email h) w)) = [] /\
  (l <> [] ->
   emails (store (snd (forM_ l (store_email h) w))) =
   firstn 100 (rev (map (fun e => toStored e (toISOString (ext w) (now w)) h) l)
               ++ emails (store w))).
Proof.
  revert w. induction l as [|e l IH]; intros w Hf.
  { simpl. split; [done|]. split; [done|]. by intros []. }
  cbn [forM_]. unfold bind. rewrite store_email_ok by done.
  set (w1 := set_store _ w).
  assert (Hf1 : faults w1 = []) by (subst w1; destruct w; simpl in *; done).
  destruct (IH w1 Hf1) as (H1 & H2 & H3).
  cbn beta iota. split; [done|]. split; [done|]. intros _.
  destruct l as [|e' l'].
  - subst w1. destruct w; reflexivity.
  - rewrite H3 by discriminate. subst w1. destruct w; simpl.
    change (toStored e (toISOString ext0 now0) h :: take 99 (emails store0))
      with (take 100 ([toStored e (toISOString ext0 now0) h] ++ emails store0)).
    rewrite firstn_app_firstn, <- !app_assoc. reflexivity.
Qed.

(** ** C4: provider failures during reconciliation *)

(** C4 (as stated, refuted).  The history names [m1] and [m2]; [m1] is
    fetched, fetching [m2] throws.  [fetchNewEmails] returns the array
    [emails] as it stands in its [catch]: it holds [m1], and [POST] stores
    it, where the claim expects an empty result and nothing stored. *)
Lemma C4_partial_fetch_counterexample :
  let w := startWorld flakyExt emptyStore in
  calls (snd (fetchNewEmails (HStr "7") w)) =
    [CHistoryList "7"; CMessagesGet "m1"; CMessagesGet "m2"] /\
  fst (fetchNewEmails (HStr "7") w) = inr [extractEmailDetails flakyExt msgA] /\
  length (emails (store (snd (POST (Some (envelope "eA==")) w)))) = 1%nat.
Proof.
  vm_compute. repeat split; reflexivity.
Qed.

Lemma fetch_digits (h : HistoryId) (w : World) :
  digits_re (historyIdString h) = true ->
  fetchNewEmails h w =
  try_catch
    (do hist <- gmail_call (CHistoryList (historyIdString h))
                  (fun x => gmail_history x (historyIdString h));
     match hist with
     | None | Some [] => fetch_latest
     | Some hs => do_ process_history hs; read_emails
     end) (fun _ => read_emails) (set_local [] w).
Proof.
  intros Hd. unfold fetchNewEmails, bind at 1, modify. cbv beta iota zeta.
  rewrite Hd. reflexivity.
Qed.

(** C4 (amended).  A failing Gmail call never makes [fetchNewEmails]
    throw.  It returns the details of the messages fetched before the
    failure, in order: none when the history query fails, or when the
    fallback's list query or its single fetch fails; the messages fetched
    before the first failing fetch on the history path.  The handler then
    stores whatever was returned (no backend faults), newest first; when
    nothing was returned it leaves the store as it was. *)
Theorem C4_reconcile_provider_failure (h : HistoryId) (w : World) :
  let s := historyIdString h in
  let x := ext w in
  (exists l w', fetchNewEmails h w = (inr l, w')) /\
  (forall e, digits_re s = true -> gmail_history x s = inl e ->
     fst (fetchNewEmails h w) = inr []) /\
  (forall e, digits_re s = true ->
     (gmail_history x s = inr None \/ gmail_history x s = inr (Some [])) ->
     (gmail_list_unread x = inl e \/
      exists mid rest, gmail_list_unread x = inr (Some (Some mid :: rest)) /\
                       mid <> ""%string /\ gmail_get x mid = inl e) ->
     fst (fetchNewEmails h w) = inr []) /\
  (forall hs pre m post msgs e,
     digits_re s = true -> gmail_history x s = inr (Some hs) -> hs <> [] ->
     added_ids hs = pre ++ m :: post ->
     Forall2 (fun mid msg => gmail_get x mid = inr msg) pre msgs ->
     gmail_get x m = inl e ->
     fst (fetchNewEmails h w) = inr (map (extractEmailDetails x) msgs)) /\
  (forall n l, notif_historyId n = h -> String.prefix "test" s = false -> faults w = [] ->
     fst (fetchNewEmails h w) = inr l -> l <> [] ->
     emails (store (snd (handle_notification n w))) =
     firstn 100 (rev (map (fun e => toStored e (toISOString x (now w)) h) l)
                 ++ emails (store w))) /\
  (forall n, notif_historyId n = h -> String.prefix "test" s = false ->
     fst (fetchNewEmails h w) = inr [] ->
     store (snd (handle_notification n w)) = store w).
Proof.
  intros s x. subst s x. split; [|split; [|split; [|split; [|split]]]].
  - unfold fetchNewEmails, bind at 1, modify. cbv beta iota.
    unfold try_catch. destruct (_ (set_local [] w)) as [[e|l] w'].
    + eexists _, _. reflexivity.
    + eexists _, _. reflexivity.
  - intros e Hd He. rewrite fetch_digits by done.
    unfold try_catch, bind, gmail_call. simpl. rewrite He. reflexivity.
  - intros e Hd Hh Hl. rewrite fetch_digits by done.
    unfold try_catch, bind at 1, gmail_call. simpl.
    destruct Hh as [Hh|Hh]; rewrite Hh; unfold fetch_latest, bind, gmail_call; simpl;
      (destruct Hl as [Hl|(mid & rest & Hl & Hmid & Hg)]; rewrite Hl; [reflexivity|];
       simpl; unfold truthy; rewrite (proj2 (String.eqb_neq _ _) Hmid);
       rewrite fetch_message_fail with (e := e) by (simpl; done); reflexivity).
  - intros hs pre m post msgs e Hd Hh Hne Hids Hpre Hm. rewrite fetch_digits by done.
    unfold try_catch, bind at 1, gmail_call. simpl. rewrite Hh.
    destruct hs as [|r rs]; [done|].
    unfold bind. rewrite process_history_forM, Hids.
    destruct (forM_fetch_fail (ext w) pre post msgs m e
                (add_call (CHistoryList (historyIdString h)) (set_local [] w))) as (w' & Hrun & Hloc);
      [destruct w; done | done | done |].
    rewrite Hrun. simpl. rewrite Hloc. destruct w; reflexivity.
  - intros n l Hn Ht Hf Hl Hne. unfold handle_notification. rewrite Hn.
    rewrite Ht.
    unfold bind.
    destruct (fetchNewEmails h w) as [r w1] eqn:E. simpl in Hl. subst r.
    destruct (Frame_fetchNewEmails h w _ w1 E) as (Hs & Hnow & Hf1 & Hx).
    rewrite ((proj2 (proj2 (store_loop h l w1 ltac:(congruence)))) Hne).
    rewrite Hs, Hnow, Hx. reflexivity.
  - intros n Hn Ht Hl. unfold handle_notification. rewrite Hn, Ht.
    unfold bind.
    destruct (fetchNewEmails h w) as [r w1] eqn:E. simpl in Hl. subst r.
    destruct (Frame_fetchNewEmails h w _ w1 E) as (Hs & _ & _ & _).
    exact Hs.
Qed.

(** Witness of [C4_reconcile_provider_failure]: history [m1; m2], fetching [m2] fails. *)
Lemma C4_reconcile_provider_failure_witness :
  let w := startWorld flakyExt emptyStore in
  digits_re "7" = true /\
  gmail_history flakyExt "7" = inr (Some [mkHistoryRecord (Some [Some "m1"; Some "m2"])]) /\
  added_ids [mkHistoryRecord (Some [Some "m1"; Some "m2"])] = (["m1"] ++ "m2" :: [])%list /\
  gmail_get flakyExt "m1" = inr msgA /\ gmail_get flakyExt "m2" = inl ProviderError /\
  fst (fetchNewEmails (HStr "7") w) = inr [extractEmailDetails flakyExt msgA].
Proof.
  split; [reflexivity|]. split; [reflexivity|]. split; [reflexivity|].
  split; [reflexivity|]. split; [reflexivity|].
  destruct (C4_reconcile_provider_failure (HStr "7") (startWorld flakyExt emptyStore))
    as (_ & _ & _ & H & _).
  apply (H [mkHistoryRecord (Some [Some "m1"; Some "m2"])] ["m1"] "m2" [] [msgA]
           ProviderError); try reflexivity.
  - discriminate.
  - constructor; [reflexivity | constructor].
Defined.

(** ** C5: cursors that are not decimal digits *)

(** C5.  When [String(historyId)] does not match [/^\d+$/],
    [fetchNewEmails] returns [[]] normally, issues no Gmail call and leaves
    the store as it is. *)
Theorem C5_invalid_cursor_no_call (h : HistoryId) (w : World) :
  digits_re (historyIdString h) = false ->
  fst (fetchNewEmails h w) = inr [] /\
  calls (snd (fetchNewEmails h w)) = calls w /\
  store (snd (fetchNewEmails h w)) = store w.
Proof.
  intros Hd. unfold fetchNewEmails, bind at 1, modify. cbv beta iota zeta.
  rewrite Hd. simpl. destruct w; repeat split.
Qed.

(** Witness of [C5_invalid_cursor_no_call] at the cursor ["12a"]. *)
Lemma C5_invalid_cursor_no_call_witness :
  digits_re (historyIdString (HStr "12a")) = false /\
  fst (fetchNewEmails (HStr "12a") (startWorld flakyExt emptyStore)) = inr [].
Proof.
  split; [reflexivity|].
  apply (C5_invalid_cursor_no_call (HStr "12a") (startWorld flakyExt emptyStore)).
  reflexivity.
Defined.

(** ** C8: [getEmails] *)

(** C8 (code defect, evaluated).  [getEmails(limit)] asks Redis for
    [LRANGE 0 (limit - 1)]; Redis reads a negative stop index from the end
    of the list, so [limit = 0] returns the whole list and [limit = -1]
    all but the last entry, where the first [min(limit, length)] entries
    (none) are expected. *)
Lemma C8_getEmails_nonpositive_limit :
  let w := startWorld sampleExt (mkStore [mkRec "1" "a"; mkRec "2" "b"] ∅ None) in
  fst (getEmails 0 w) = inr [mkRec "1" "a"; mkRec "2" "b"] /\
  fst (getEmails (-1) w) = inr [mkRec "1" "a"] /\
  fst (getEmails 1 w) = inr [mkRec "1" "a"] /\
  fst (getEmails 50 (startWorld sampleExt emptyStore)) = inr [].
Proof.
  vm_compute. repeat split; reflexivity.
Qed.

(** ** C9: test notifications *)

(** C9.  A notification whose decoded [historyId] is ["test-123"] makes
    [POST] (no backend faults) push exactly one placeholder record at the
    head of the list, whose subject contains ["[Test]"] and whose snippet
    contains ["test-123"], without any Gmail call. *)
Theorem C9_test_notification_placeholder (w : World) (env : PubSubMessage)
    (msg : PubSubInner) (d : string) (n : GmailNotification) :
  faults w = [] -> message env = Some msg -> truthy (data msg) = Some d ->
  json_parse (ext w) (b64decode (ext w) d) = Some n ->
  notif_historyId n = HStr "test-123" ->
  let w' := snd (POST (Some env) w) in
  let r := testEmail (ext w) (now w) n in
  emails (store w') = firstn 100 (r :: emails (store w)) /\
  calls w' = calls w /\
  includes (subject r) "[Test]" = true /\
  includes (snippet r) "test-123" = true.
Proof.
  intros Hf Hm Hd Hj Hh w' r. subst w' r.
  unfold POST, try_catch, bind. simpl. rewrite Hm, Hd. unfold get_ext. cbv beta iota zeta.
  rewrite Hj. unfold handle_notification. rewrite Hh. simpl.
  unfold bind, get_world. cbv beta iota. rewrite addEmail_ok by done. simpl.
  split; [reflexivity|]. split; [destruct w; reflexivity|].
  split; reflexivity.
Qed.

(** Witness of [C9_test_notification_placeholder]. *)
Lemma C9_test_notification_placeholder_witness :
  let w := startWorld testExt emptyStore in
  faults w = [] /\
  message (envelope "dGVzdA==") = Some (mkPubSubInner (Some "dGVzdA==") "1" "p") /\
  truthy (Some "dGVzdA==") = Some "dGVzdA==" /\
  json_parse testExt (b64decode testExt "dGVzdA==") = Some testNotification /\
  emails (store (snd (POST (Some (envelope "dGVzdA==")) w))) =
    [testEmail testExt 0 testNotification] /\
  calls (snd (POST (Some (envelope "dGVzdA==")) w)) = [].
Proof.
  do 4 (split; [reflexivity|]).
  destruct (C9_test_notification_placeholder (startWorld testExt emptyStore)
              (envelope "dGVzdA==") (mkPubSubInner (Some "dGVzdA==") "1" "p")
              "dGVzdA==" testNotification eq_refl eq_refl eq_refl eq_refl eq_refl)
    as (H1 & H2 & _ & _).
  split; [exact H1 | exact H2].
Defined.

(** ** Extraction lemmas *)

Lemma extract_body_flat (x : Ext) (m : GmailMessage) (d : string) :
  flat_data m = Some d -> extract_body x m = b64decode x d.
Proof. intros H. unfold extract_body. rewrite H. reflexivity. Qed.

Lemma extract_body_part (x : Ext) (m : GmailMessage) (d : string) :
  flat_data m = None -> text_part_data m = Some d -> extract_body x m = b64decode x d.
Proof.
  intros H1 H2. unfold extract_body. rewrite H1. unfold text_part_data in H2.
  destruct (msg_parts m) as [ps|]; [|discriminate].
  destruct (textPart ps) as [p|]; [|discriminate]. rewrite H2. reflexivity.
Qed.

Lemma extract_body_none (x : Ext) (m : GmailMessage) :
  flat_data m = None -> text_part_data m = None -> extract_body x m = ""%string.
Proof.
  intros H1 H2. unfold extract_body. rewrite H1. unfold text_part_data in H2.
  destruct (msg_parts m) as [ps|]; [|reflexivity].
  destruct (textPart ps) as [p|]; [|reflexivity]. rewrite H2. reflexivity.
Qed.

Lemma textPart_first (ps : list Part) (p : Part) :
  textPart ps = Some p ->
  exists pre post, ps = pre ++ p :: post /\ mimeType p = "text/plain"%string /\
                   Forall (fun q => mimeType q <> "text/plain"%string) pre.
Proof.
  unfold textPart. induction ps as [|q ps IH]; simpl; [discriminate|].
  destruct (String.eqb (mimeType q) "text/plain") eqn:E.
  - intros [= <-]. exists [], ps. apply String.eqb_eq in E. auto.
  - intros H. destruct (IH H) as (pre & post & -> & Hp & Hpre).
    exists (q :: pre), post. split; [reflexivity|]. split; [done|].
    constructor; [|done]. apply String.eqb_neq. done.
Qed.

Lemma substring0_length (n : nat) (s : string) :
  String.length (substring 0 n s) = Nat.min n (String.length s).
Proof.
  revert n. induction s as [|c s IH]; intros [|n]; simpl; try reflexivity.
  rewrite IH. reflexivity.
Qed.

Lemma substring0_prefix (n : nat) (s : string) :
  String.prefix (substring 0 n s) s = true.
Proof.
  revert n. induction s as [|c s IH]; intros [|n]; simpl; try reflexivity.
  destruct (ascii_dec c c) as [_|C]; [apply IH | by destruct C].
Qed.

(** ** C6, C7, C10: body and header extraction *)

(** C6 (as stated, refuted).  With neither a flat body nor a [text/plain]
    part, the extracted body is the empty string (the local [body] starts
    as [''] and is always returned), not an absent body. *)
Lemma C6_absent_body_counterexample :
  flat_data msgNoBody = None /\ text_part_data msgNoBody = None /\
  ed_body (extractEmailDetails sampleExt msgNoBody) = Some ""%string /\
  Some ""%string <> None.
Proof. repeat split; [reflexivity..|discriminate]. Qed.

(** C6 (amended).  The body is (a) the truthy flat [payload.body.data],
    decoded; else (b) the truthy data of the first part whose [mimeType]
    is exactly ['text/plain'], decoded; else (c) the empty string; in each
    case cut to its first 1000 characters. *)
Theorem C6_body_selection (x : Ext) (m : GmailMessage) :
  (forall d, flat_data m = Some d ->
     ed_body (extractEmailDetails x m) = Some (substring 0 1000 (b64decode x d))) /\
  (forall d, flat_data m = None -> text_part_data m = Some d ->
     ed_body (extractEmailDetails x m) = Some (substring 0 1000 (b64decode x d))) /\
  (flat_data m = None -> text_part_data m = None ->
     ed_body (extractEmailDetails x m) = Some ""%string) /\
  (forall ps p, msg_parts m = Some ps -> textPart ps = Some p ->
     exists pre post, ps = pre ++ p :: post /\ mimeType p = "text/plain"%string /\
                      Forall (fun q => mimeType q <> "text/plain"%string) pre).
Proof.
  split; [|split; [|split]].
  - intros d H. simpl. rewrite (extract_body_flat x m d H). reflexivity.
  - intros d H1 H2. simpl. rewrite (extract_body_part x m d H1 H2). reflexivity.
  - intros H1 H2. simpl. rewrite (extract_body_none x m H1 H2). reflexivity.
  - intros ps p _ Hp. apply textPart_first. done.
Qed.

(** Witness of [C6_body_selection]: a [text/html] part before the [text/plain] one. *)
Lemma C6_body_selection_witness :
  flat_data msgLong = None /\ text_part_data msgLong = Some (rep_char 5000 "a") /\
  ed_body (extractEmailDetails sampleExt msgLong) = Some (substring 0 1000 (rep_char 5000 "a")).
Proof.
  split; [reflexivity|]. split; [reflexivity|].
  destruct (C6_body_selection sampleExt msgLong) as (_ & H & _).
  apply H; reflexivity.
Defined.

(** C7.  If the selected body source (flat body, or else the first
    [text/plain] part) decodes to 5000 characters, the stored record's
    body has exactly 1000 characters and is a strict prefix of it. *)
Theorem C7_body_cap (x : Ext) (m : GmailMessage) (d recv : string) (h : HistoryId) :
  (flat_data m = Some d \/ (flat_data m = None /\ text_part_data m = Some d)) ->
  String.length (b64decode x d) = 5000%nat ->
  exists b, body (toStored (extractEmailDetails x m) recv h) = Some b /\
            String.length b = 1000%nat /\
            String.prefix b (b64decode x d) = true /\
            b <> b64decode x d.
Proof.
  intros Hsrc Hlen.
  assert (Hb : extract_body x m = b64decode x d).
  { destruct Hsrc as [H | [H1 H2]];
      [apply extract_body_flat | apply extract_body_part]; done. }
  exists (substring 0 1000 (b64decode x d)). simpl. rewrite Hb.
  split; [reflexivity|].
  rewrite substring0_length, Hlen. split; [reflexivity|].
  split; [apply substring0_prefix|].
  intros E. apply (f_equal String.length) in E.
  rewrite substring0_length, Hlen in E. discriminate.
Qed.

(** Witness of [C7_body_cap]: a 5000-character [text/plain] part. *)
Lemma C7_body_cap_witness :
  (flat_data msgLong = None /\ text_part_data msgLong = Some (rep_char 5000 "a")) /\
  String.length (b64decode sampleExt (rep_char 5000 "a")) = 5000%nat /\
  exists b, body (toStored (extractEmailDetails sampleExt msgLong) "r" (HStr "1")) = Some b /\
            String.length b = 1000%nat /\
            String.prefix b (b64decode sampleExt (rep_char 5000 "a")) = true /\
            b <> b64decode sampleExt (rep_char 5000 "a").
Proof.
  split; [split; reflexivity|]. split; [vm_compute; reflexivity|].
  apply C7_body_cap.
  - right. split; reflexivity.
  - vm_compute. reflexivity.
Defined.

(** C10.  The [text/plain] part is chosen by exact, case-sensitive string
    equality of [mimeType] with ['text/plain'], while header names are
    compared after [toLowerCase]: a message with no flat body whose only
    part is ['Text/Plain'] gets an empty body, yet its ['SUBJECT'] header
    is found by the lookup for ['Subject']. *)
Theorem C10_mime_exact_header_caseless (x : Ext) (m : GmailMessage) (d v : string)
    (rest : list Header) :
  (forall p, textPart [p] = Some p <-> mimeType p = "text/plain"%string) /\
  (flat_data m = None ->
   msg_parts m = Some [mkPart "Text/Plain" (Some d)] ->
   msg_headers m = mkHeader "SUBJECT" v :: rest ->
   ed_body (extractEmailDetails x m) = Some ""%string /\
   ed_subject (extractEmailDetails x m) = v).
Proof.
  split.
  - intros p. unfold textPart. simpl.
    destruct (String.eqb (mimeType p) "text/plain") eqn:E.
    + apply String.eqb_eq in E. split; done.
    + apply String.eqb_neq in E. split; [discriminate | done].
  - intros Hf Hp Hh. simpl. unfold extract_body. rewrite Hf, Hp. simpl.
    split; [reflexivity|]. rewrite Hh. reflexivity.
Qed.

(** Witness of [C10_mime_exact_header_caseless]. *)
Lemma C10_mime_exact_header_caseless_witness :
  flat_data msgUpperMime = None /\
  msg_parts msgUpperMime = Some [mkPart "Text/Plain" (Some "aGk=")] /\
  msg_headers msgUpperMime = [mkHeader "SUBJECT" "Hi"] /\
  ed_body (extractEmailDetails sampleExt msgUpperMime) = Some ""%string /\
  ed_subject (extractEmailDetails sampleExt msgUpperMime) = "Hi"%string.
Proof.
  do 3 (split; [reflexivity|]).
  apply (proj2 (C10_mime_exact_header_caseless sampleExt msgUpperMime "aGk=" "Hi" []));
    reflexivity.
Defined.

(** * Further properties of the code *)

Lemma lrange_all {A} (l : list A) : lrange l 0 (-1) = l.
Proof.
  unfold lrange. simpl.
  destruct l as [|a l]; [reflexivity|].
  cbn [length]. rewrite Nat2Z.inj_succ.
  destruct (0 >? Z.succ (Z.of_nat (length l)) + -1) eqn:E1; zbool; [lia|].
  destruct (0 >=? Z.succ (Z.of_nat (length l))) eqn:E2; zbool; [lia|]. simpl orb.
  destruct (Z.succ (Z.of_nat (length l)) + -1 >=? Z.succ (Z.of_nat (length l))) eqn:E3;
    zbool; [lia|].
  rewrite skipn_O, firstn_all2; [done|]. cbn [length]. lia.
Qed.

Lemma lrange_last {A} (l : list A) :
  lrange l (-1) (-1) = match last l with Some x => [x] | None => [] end.
Proof.
  destruct l as [|a l] using rev_ind; [reflexivity|]. clear IHl.
  rewrite last_snoc. unfold lrange. rewrite length_app. cbn [length].
  rewrite Nat2Z.inj_add. change (Z.of_nat 1) with 1. simpl.
  replace (Z.of_nat (length l) + 1 + -1) with (Z.of_nat (length l)) by lia.
  destruct (Z.of_nat (length l) <? 0) eqn:E1; zbool; [lia|].
  destruct (Z.of_nat (length l) >? Z.of_nat (length l)) eqn:E2; zbool; [lia|].
  destruct (Z.of_nat (length l) >=? Z.of_nat (length l) + 1) eqn:E3; zbool; [lia|].
  simpl orb. rewrite Nat2Z.id, Z.sub_diag. simpl.
  rewrite skipn_app, (skipn_all l), Nat.sub_diag. reflexivity.
Qed.

Lemma getStats_ok (w : World) :
  faults w = [] ->
  fst (getStats w) =
  inr (mkStats (Z.of_nat (length (emails (store w))))
               (option_map date (head (emails (store w))))
               (option_map date (last (emails (store w))))
               (lastReceived_value w)).
Proof.
  destruct w as [x [es bi lr] t f c l]; simpl; intros ->.
  unfold lastReceived_value; simpl.
  cbv [getStats try_catch bind r_llen r_get_last r_lrange redis ret set_faults set_store]; simpl.
  rewrite lrange_last.
  pose proof (lrange_prefix es 1 ltac:(lia)) as H0. change (1 - 1) with 0 in H0. rewrite H0.
  f_equal. f_equal.
  - destruct es; reflexivity.
  - destruct (last es); reflexivity.
  - destruct lr as [[v d]|]; [|reflexivity]. destruct (alive t d); reflexivity.
Qed.

(** After a successful [addEmail e], [getStats] reports min(100, n+1) emails, [e]'s date as the newest, the date of the last kept record as the oldest, and the insert time as [lastReceived]. *)
Theorem X_getStats_after_addEmail (e : StoredEmail) (w : World) :
  faults w = [] -> toISOString (ext w) (now w) <> ""%string ->
  let w' := snd (addEmail e w) in
  let kept := firstn 100 (e :: emails (store w)) in
  fst (getStats w') =
  inr (mkStats (Z.of_nat (Nat.min 100 (S (length (emails (store w))))))
               (Some (date e)) (option_map date (last kept))
               (Some (toISOString (ext w) (now w)))).
Proof.
  intros Hf Hiso w' kept. subst w' kept.
  rewrite addEmail_ok by done. rewrite getStats_ok by (destruct w; simpl in *; done).
  unfold lastReceived_value. destruct w as [x [es bi lr] t f c l]; simpl in *.
  rewrite length_firstn. simpl.
  unfold alive. replace (t <=? t + emailTTL * 1000) with true by (symmetry; apply Z.leb_le; unfold emailTTL; lia).
  apply String.eqb_neq in Hiso. rewrite Hiso. reflexivity.
Qed.

Lemma clear_ok (w : World) :
  faults w = [] ->
  clear w = (inr true,
             set_store (mkStore [] (foldr delete (byId (store w)) (map id (emails (store w)))) None) w).
Proof.
  destruct w as [x [es bi lr] t f c l]; simpl; intros ->.
  cbv [clear try_catch bind r_lrange r_del_emails_by_id r_del_list r_del_last redis ret
       set_faults set_store]; simpl.
  rewrite lrange_all. destruct es as [|e es]; reflexivity.
Qed.

(** With no backend failure, [clear] returns true, empties the list, deletes the per-id key of every listed record and no other, and afterwards [getEmails] returns [] for every limit and [getStats] the zero record. *)
Theorem X_clear_empties_store (w : World) :
  faults w = [] ->
  let w' := snd (clear w) in
  fst (clear w) = inr true /\
  emails (store w') = [] /\
  (forall r, r ∈ emails (store w) -> byId (store w') !! id r = None) /\
  (forall k, k ∉ map id (emails (store w)) -> byId (store w') !! k = byId (store w) !! k) /\
  (forall limit, fst (getEmails limit w') = inr []) /\
  fst (getStats w') = inr (mkStats 0 None None None).
Proof.
  intros Hf w'. subst w'. rewrite clear_ok by done.
  assert (Hf' : faults (set_store (mkStore [] (foldr delete (byId (store w))
                  (map id (emails (store w)))) None) w) = []) by (destruct w; simpl in *; done).
  split; [done|]. split; [destruct w; done|]. split; [|split; [|split]].
  - intros r Hr. destruct w; simpl. apply lookup_foldr_delete.
    apply list_elem_of_fmap. eauto.
  - intros k Hk. destruct w; simpl. by apply lookup_foldr_delete_not_elem_of.
  - intros limit. destruct w as [x s t f c l]; simpl in *; subst f.
    cbv [getEmails try_catch r_lrange redis set_faults set_store]; simpl.
    unfold lrange. simpl. destruct (limit - 1 <? 0), (0 >? _); reflexivity.
  - rewrite getStats_ok by done. destruct w; reflexivity.
Qed.

(** After a successful [addEmail e], [getEmails 1] returns [[e]] and [getEmail (id e)] returns [e] for 30 days. *)
Theorem X_addEmail_round_trip (e : StoredEmail) (w : World) (wait : N) :
  faults w = [] -> Z.of_N wait <= emailTTL * 1000 ->
  let w' := snd (addEmail e w) in
  fst (addEmail e w) = inr true /\
  fst (getEmails 1 w') = inr [e] /\
  fst (getEmail (id e) (snd (advance wait w'))) = inr (Some e).
Proof.
  intros Hf Hw w'. subst w'. rewrite addEmail_ok by done.
  split; [done|]. split.
  - rewrite getEmails_ok by (destruct w; simpl in *; done || lia).
    destruct w; reflexivity.
  - rewrite getEmail_ok by (destruct w; simpl in *; done).
    destruct w as [x s t f c l]; simpl. rewrite lookup_insert_eq. unfold alive.
    replace (t + Z.of_N wait <=? t + emailTTL * 1000) with true
      by (symmetry; apply Z.leb_le; lia). reflexivity.
Qed.

(** [addEmail] is not atomic: if [LPUSH] fails nothing changes; if [LTRIM] fails the record stays pushed on an untrimmed list, with no per-id key and no stats update; both report false. *)
Theorem X_addEmail_partial_failure (e : StoredEmail) (w : World) (fs : list bool) :
  (faults w = true :: fs ->
   addEmail e w = (inr false, set_faults fs w)) /\
  (faults w = false :: true :: fs ->
   addEmail e w = (inr false,
     set_faults fs (set_store (mkStore (e :: emails (store w)) (byId (store w))
                                       (lastReceived (store w))) w))).
Proof.
  destruct w as [x [es bi lr] t f c l]; simpl. split; intros ->; reflexivity.
Qed.

(** When the backend fails on the first command, every read returns its empty default ([], None, the zero stats) and [clear] returns false, changing nothing. *)
Theorem X_reads_on_backend_failure (w : World) (fs : list bool) (limit : Z) (i : string) :
  faults w = true :: fs ->
  getEmails limit w = (inr [], set_faults fs w) /\
  getEmail i w = (inr None, set_faults fs w) /\
  getStats w = (inr (mkStats 0 None None None), set_faults fs w) /\
  clear w = (inr false, set_faults fs w).
Proof.
  destruct w as [x [es bi lr] t f c l]; simpl. intros ->. repeat split.
Qed.

Lemma lower_ascii_idem (c : ascii) : lower_ascii (lower_ascii c) = lower_ascii c.
Proof. destruct c as [[] [] [] [] [] [] [] []]; reflexivity. Qed.

Lemma toLowerCase_idem (s : string) : toLowerCase (toLowerCase s) = toLowerCase s.
Proof. induction s as [|c s IH]; simpl; [done|]. by rewrite lower_ascii_idem, IH. Qed.

(** [getHeader] ignores the case of the requested name, and yields the empty string when no header name matches. *)
Theorem X_getHeader_caseless (hs : list Header) (name : string) :
  getHeader hs name = getHeader hs (toLowerCase name) /\
  (Forall (fun h => toLowerCase (hname h) <> toLowerCase name) hs ->
   getHeader hs name = ""%string).
Proof.
  split.
  - unfold getHeader. by rewrite toLowerCase_idem.
  - intros Hall. unfold getHeader.
    induction Hall as [|h hs Hh _ IH]; [done|]. simpl.
    apply String.eqb_neq in Hh. by rewrite Hh.
Qed.

Lemma forM_fetch_ok (x : Ext) (ids : list string) (msgs : list GmailMessage) (w : World) :
  ext w = x ->
  Forall2 (fun mid msg => gmail_get x mid = inr msg) ids msgs ->
  exists w', forM_ ids fetch_message w = (inr tt, w') /\
    local_emails w' = local_emails w ++ map (extractEmailDetails x) msgs /\
    calls w' = calls w ++ map CMessagesGet ids /\ keeps w w'.
Proof.
  intros Hx Hall. revert w Hx.
  induction Hall as [|mid msg ids msgs Hg _ IH]; intros w Hx.
  - exists w. simpl. rewrite !app_nil_r. split; [done|]. split; [done|]. split; [done|].
    apply keeps_refl.
  - simpl. unfold bind at 1. rewrite (fetch_message_ok mid msg) by congruence.
    destruct (IH (set_local (local_emails w ++ [extractEmailDetails (ext w) msg])
                            (add_call (CMessagesGet mid) w)))
      as (w' & Hrun & Hloc & Hcalls & Hk); [destruct w; simpl in *; done|].
    exists w'. split; [exact Hrun|]. rewrite Hloc, Hcalls.
    destruct w; simpl in *; subst. rewrite <- !app_assoc.
    split; [done|]. split; [done|]. destruct Hk as (? & ? & ? & ?). repeat split; done.
Qed.

(** When every fetch succeeds, [fetchNewEmails] returns the details of all messages named by the history, in order, after one history call and one get per id, without touching the store. *)
Theorem X_history_reconcile_ok (h : HistoryId) (w : World) (hs : list HistoryRecord)
        (msgs : list GmailMessage) :
  let s := historyIdString h in
  let x := ext w in
  digits_re s = true -> gmail_history x s = inr (Some hs) -> hs <> [] ->
  Forall2 (fun mid msg => gmail_get x mid = inr msg) (added_ids hs) msgs ->
  fst (fetchNewEmails h w) = inr (map (extractEmailDetails x) msgs) /\
  calls (snd (fetchNewEmails h w)) = calls w ++ CHistoryList s :: map CMessagesGet (added_ids hs) /\
  keeps w (snd (fetchNewEmails h w)).
Proof.
  intros s x Hd Hh Hne Hall. subst s x.
  enough (exists w', fetchNewEmails h w = (inr (map (extractEmailDetails (ext w)) msgs), w') /\
            calls w' = calls w ++ CHistoryList (historyIdString h) :: map CMessagesGet (added_ids hs) /\
            keeps w w') as (w' & -> & Hc & Hk) by (simpl; auto).
  rewrite fetch_digits by done.
  destruct (forM_fetch_ok (ext w) (added_ids hs) msgs
              (add_call (CHistoryList (historyIdString h)) (set_local [] w)))
    as (w' & Hrun & Hloc & Hcalls & Hk); [destruct w; done | done |].
  rewrite <- process_history_forM in Hrun.
  unfold try_catch, bind, gmail_call.
  replace (gmail_history (ext (set_local [] w)) (historyIdString h)) with (inr (A:=Exn) (Some hs))
    by (destruct w; simpl in *; done).
  destruct hs as [|r rs]; [done|]. cbn iota beta.
  rewrite Hrun. cbn iota beta. unfold read_emails. cbn iota beta.
  exists w'. rewrite Hloc, Hcalls. destruct w; simpl in *.
  split; [reflexivity|]. split; [by rewrite <- app_assoc|].
  unfold keeps in *; simpl in *. intuition congruence.
Qed.

Lemma fallback_one (h : HistoryId) (w : World) (mid : string) (rest : list (option string))
      (msg : GmailMessage) :
  let s := historyIdString h in
  let x := ext w in
  digits_re s = true ->
  (gmail_history x s = inr None \/ gmail_history x s = inr (Some [])) ->
  gmail_list_unread x = inr (Some (Some mid :: rest)) ->
  mid <> ""%string -> gmail_get x mid = inr msg ->
  fst (fetchNewEmails h w) = inr [extractEmailDetails x msg] /\
  calls (snd (fetchNewEmails h w)) = calls w ++ [CHistoryList s; CMessagesList; CMessagesGet mid].
Proof.
  intros s x Hd Hh Hl Hmid Hg. subst s x.
  rewrite fetch_digits by done.
  destruct w as [x st t f c l]; simpl in Hh, Hl, Hg |- *.
  cbv [try_catch bind gmail_call fetch_latest fetch_message read_emails push_email
       get_ext modify set_local add_call ext calls local_emails truthy].
  apply String.eqb_neq in Hmid.
  destruct Hh as [Hh|Hh]; rewrite Hh, Hl, Hmid, Hg;
    (split; simpl; [reflexivity | rewrite <- ?app_assoc; reflexivity]).
Qed.

Lemma fallback_none (h : HistoryId) (w : World) :
  let s := historyIdString h in
  let x := ext w in
  digits_re s = true ->
  (gmail_history x s = inr None \/ gmail_history x s = inr (Some [])) ->
  (gmail_list_unread x = inr None \/ gmail_list_unread x = inr (Some [])) ->
  fst (fetchNewEmails h w) = inr [] /\
  calls (snd (fetchNewEmails h w)) = calls w ++ [CHistoryList s; CMessagesList].
Proof.
  intros s x Hd Hh Hl. subst s x.
  rewrite fetch_digits by done.
  destruct w as [x st t f c l]; simpl in Hh, Hl |- *.
  cbv [try_catch bind gmail_call fetch_latest fetch_message read_emails push_email
       get_ext modify set_local add_call ext calls local_emails truthy].
  destruct Hh as [Hh|Hh]; rewrite Hh; destruct Hl as [Hl|Hl]; rewrite Hl;
    (split; simpl; [reflexivity | rewrite <- ?app_assoc; reflexivity]).
Qed.

(** With an empty history, [fetchNewEmails] lists the unread messages and fetches only the first one; with no unread message it returns [] after the list call. *)
Theorem X_fallback_latest_unread (h : HistoryId) (w : World) :
  let s := historyIdString h in
  let x := ext w in
  digits_re s = true ->
  (gmail_history x s = inr None \/ gmail_history x s = inr (Some [])) ->
  (forall mid rest msg, gmail_list_unread x = inr (Some (Some mid :: rest)) ->
     mid <> ""%string -> gmail_get x mid = inr msg ->
     fst (fetchNewEmails h w) = inr [extractEmailDetails x msg] /\
     calls (snd (fetchNewEmails h w)) = calls w ++ [CHistoryList s; CMessagesList; CMessagesGet mid]) /\
  ((gmail_list_unread x = inr None \/ gmail_list_unread x = inr (Some [])) ->
     fst (fetchNewEmails h w) = inr [] /\
     calls (snd (fetchNewEmails h w)) = calls w ++ [CHistoryList s; CMessagesList]).
Proof.
  intros s x Hd Hh. split.
  - intros mid rest msg Hl Hmid Hg. by apply (fallback_one h w mid rest msg).
  - intros Hl. by apply fallback_none.
Qed.

Lemma POST_parsed (env : PubSubMessage) (msg : PubSubInner) (d : string)
      (n : GmailNotification) (w : World) :
  message env = Some msg -> truthy (data msg) = Some d ->
  json_parse (ext w) (b64decode (ext w) d) = Some n ->
  POST (Some env) w = (inr ok200, snd (handle_notification n w)).
Proof.
  intros Hm Hd Hj.
  unfold POST, try_catch, bind. simpl. rewrite Hm, Hd. unfold get_ext. cbv beta iota zeta.
  rewrite Hj. destruct (handle_notification n w) as [[e|u] w']; reflexivity.
Qed.


(** [POST] with an unreadable body, no [message], no [data], or data that does not decode to a notification acknowledges and leaves the whole world unchanged. *)
Theorem X_POST_ignores_malformed (w : World) :
  POST None w = (inr ok200, w) /\
  (forall env, message env = None -> POST (Some env) w = (inr ok200, w)) /\
  (forall env msg, message env = Some msg -> truthy (data msg) = None ->
     POST (Some env) w = (inr ok200, w)) /\
  (forall env msg d, message env = Some msg -> truthy (data msg) = Some d ->
     json_parse (ext w) (b64decode (ext w) d) = None ->
     POST (Some env) w = (inr ok200, w)).
Proof.
  split; [reflexivity|]. split; [|split].
  - intros env Hm. unfold POST, try_catch, bind. simpl. rewrite Hm. reflexivity.
  - intros env msg Hm Hd. unfold POST, try_catch, bind. simpl. rewrite Hm, Hd. reflexivity.
  - intros env msg d Hm Hd Hj. unfold POST, try_catch, bind. simpl. rewrite Hm, Hd.
    unfold get_ext. cbv beta iota zeta. rewrite Hj. reflexivity.
Qed.

Lemma prefix_app (p s : string) : String.prefix p (p ++ s) = true.
Proof.
  induction p as [|c p IH]; [by destruct s|]. simpl.
  destruct (ascii_dec c c); [exact IH | congruence].
Qed.

(** Any cursor beginning with [test] (not only [test-...]) stores one placeholder with no Gmail call, carrying the notification's cursor; the cleanup filter counts it as a test email. *)
Theorem X_test_prefix_placeholder (w : World) (env : PubSubMessage) (msg : PubSubInner)
    (d : string) (n : GmailNotification) :
  faults w = [] -> message env = Some msg -> truthy (data msg) = Some d ->
  json_parse (ext w) (b64decode (ext w) d) = Some n ->
  String.prefix "test" (historyIdString (notif_historyId n)) = true ->
  let w' := snd (POST (Some env) w) in
  let r := testEmail (ext w) (now w) n in
  emails (store w') = firstn 100 (r :: emails (store w)) /\
  calls w' = calls w /\
  historyId r = notif_historyId n /\
  isTestEmail r = true.
Proof.
  intros Hf Hm Hd Hj Hp w' r. subst w' r.
  rewrite (POST_parsed env msg d n) by done.
  unfold handle_notification. cbv zeta. rewrite Hp.
  unfold bind, get_world. cbv beta iota. rewrite addEmail_ok by done. simpl.
  split; [reflexivity|]. split; [destruct w; reflexivity|]. split; [reflexivity|].
  unfold isTestEmail. simpl. rewrite prefix_app. reflexivity.
Qed.



Lemma firstn_min_len {A} (l : list A) (a : Z) :
  0 <= a -> firstn (Z.to_nat (Z.min a (Z.of_nat (length l)))) l = firstn (Z.to_nat a) l.
Proof.
  intros Ha. destruct (Z.min_spec a (Z.of_nat (length l))) as [[_ ->]|[Hle ->]]; [done|].
  rewrite Nat2Z.id, firstn_all, firstn_all2; [done|lia].
Qed.

Lemma mem_addEmail_firstn (e : StoredEmail) (es : list StoredEmail) :
  MemStore.addEmail e es = firstn 100 (e :: es).
Proof.
  unfold MemStore.addEmail, MemStore.slice0, MemStore.maxEmails.
  destruct (Nat.ltb 100 (length (e :: es))) eqn:E.
  - replace (Z.of_nat 100 <? 0) with false by reflexivity.
    rewrite firstn_min_len by lia. reflexivity.
  - apply Nat.ltb_ge in E. rewrite firstn_all2; [done|lia].
Qed.




Lemma find_none_Forall (i : string) (l : list StoredEmail) :
  Forall (fun r => id r <> i) l -> MemStore.getEmail i l = None.
Proof.
  unfold MemStore.getEmail. induction 1 as [|r l Hr _ IH]; [done|]. simpl.
  apply String.eqb_neq in Hr. by rewrite Hr.
Qed.

Lemma mem_fold_add (rs : list StoredEmail) (l : list StoredEmail) :
  (length l <= 100)%nat ->
  fold_left (fun acc r => MemStore.addEmail r acc) rs l = firstn 100 (rev rs ++ l).
Proof.
  revert l. induction rs as [|r rs IH]; intros l Hl.
  - simpl. by rewrite firstn_all2.
  - simpl. rewrite IH by (rewrite mem_addEmail_firstn, length_firstn; lia).
    rewrite mem_addEmail_firstn.
    change (r :: l) with ([r] ++ l). rewrite firstn_app_firstn, <- app_assoc. reflexivity.
Qed.

(** In the in-memory store, a record pushed out by 100 later inserts of other ids can no longer be found by [getEmail]. *)
Theorem X_memstore_evicts_for_good (e : StoredEmail) (es rs : list StoredEmail) :
  (length es <= 100)%nat -> (100 <= length rs)%nat -> Forall (fun r => id r <> id e) rs ->
  let es' := fold_left (fun acc r => MemStore.addEmail r acc) rs (MemStore.addEmail e es) in
  length es' = 100%nat /\ MemStore.getEmail (id e) es' = None.
Proof.
  intros Hes Hrs Hids es'. subst es'.
  rewrite mem_fold_add by (rewrite mem_addEmail_firstn, length_firstn; lia).
  rewrite firstn_app, length_rev.
  replace (100 - length rs)%nat with 0%nat by lia. rewrite firstn_O, app_nil_r.
  split; [rewrite length_firstn, length_rev; lia|].
  apply find_none_Forall. apply Forall_take. by apply Forall_rev.
Qed.

Lemma try_ret_inr {A} (m : M A) (v : A) (w : World) :
  exists a w', try_catch m (fun _ => ret v) w = (inr a, w').
Proof. unfold try_catch, ret. destruct (m w) as [[e|a] w']; eauto. Qed.

Lemma getEmails_run (limit : Z) (w : World) :
  faults w = [] -> getEmails limit w = (inr (lrange (emails (store w)) 0 (limit - 1)), w).
Proof. destruct w as [x [es bi lr] t f c l]; simpl; intros ->. reflexivity. Qed.

Lemma getEmails_cases (limit : Z) (w : World) :
  fst (getEmails limit w) = inr [] \/
  fst (getEmails limit w) = inr (lrange (emails (store w)) 0 (limit - 1)).
Proof.
  destruct w as [x [es bi lr] t [|[|] fs] c l]; [right | left | right]; reflexivity.
Qed.

Lemma NoThrow_ret {A} (a : A) (P : A -> Prop) : P a -> NoThrow (ret a) P.
Proof. intros H w. eauto. Qed.

Lemma NoThrow_bind {A B} (m : M A) (k : A -> M B) (P : A -> Prop) (Q : B -> Prop) :
  NoThrow m P -> (forall a, P a -> NoThrow (k a) Q) -> NoThrow (bind m k) Q.
Proof.
  intros Hm Hk w. destruct (Hm w) as (a & w1 & E & Ha).
  unfold bind. rewrite E. exact (Hk a Ha w1).
Qed.

Lemma NoThrow_try {A} (m : M A) (h : Exn -> M A) (P : A -> Prop) :
  NoThrow m P -> NoThrow (try_catch m h) P.
Proof.
  intros Hm w. destruct (Hm w) as (a & w1 & E & Ha). unfold try_catch. rewrite E. eauto.
Qed.

Lemma NoThrow_try_ret {A} (m : M A) (v : A) : NoThrow (try_catch m (fun _ => ret v)) (fun _ => True).
Proof.
  intros w. unfold try_catch, ret. destruct (m w) as [[e|a] w']; eauto.
Qed.

Lemma NoThrow_weaken {A} (m : M A) (P Q : A -> Prop) :
  NoThrow m P -> (forall a, P a -> Q a) -> NoThrow m Q.
Proof. intros Hm HPQ w. destruct (Hm w) as (a & w1 & E & Ha). eauto. Qed.

(** [GET /api/emails] always answers 200; with a limit parsing to n >= 1 (default 50) and no backend failure it returns the n newest records and the stats. *)
Theorem X_emails_GET (nan_reply : Store -> list StoredEmail) (p : option string) (w : World) :
  (exists es stats, fst (emails_GET nan_reply p w) = inr (mkEmailsGetResponse 200 es stats)) /\
  (faults w = [] -> forall n,
     parseInt (match truthy p with Some v => v | None => "50"%string end) = Some n -> 1 <= n ->
     exists stats, fst (getStats w) = inr stats /\
       fst (emails_GET nan_reply p w) =
       inr (mkEmailsGetResponse 200 (firstn (Z.to_nat n) (emails (store w))) stats)).
Proof.
  split.
  - assert (H : NoThrow (emails_GET nan_reply p) (fun r => eg_status r = 200)).
    { unfold emails_GET. apply NoThrow_try. cbv zeta.
      apply (NoThrow_bind _ _ (fun _ => True)).
      - destruct (parseInt _); [apply NoThrow_try_ret | apply NoThrow_try_ret].
      - intros es _. apply (NoThrow_bind _ _ (fun _ => True)); [apply NoThrow_try_ret|].
        intros st _. by apply NoThrow_ret. }
    destruct (H w) as ([st es stats] & w' & E & Hst). simpl in Hst. subst st.
    exists es, stats. by rewrite E.
  - intros Hf n Hp Hn.
    destruct (NoThrow_try_ret (do total <- r_llen; do last <- r_get_last; do es <- r_lrange 0 0;
        do olds <- r_lrange (-1) (-1);
        ret (mkStats total (option_map date (head es)) (option_map date (head olds))
               (match last with Some v => if String.eqb v "" then None else Some v
                | None => None end))) (mkStats 0 None None None) w) as (st & w2 & Es & _).
    fold getStats in Es.
    exists st. split; [by rewrite Es|].
    unfold emails_GET, try_catch, bind. cbv zeta. rewrite Hp.
    rewrite getEmails_run by done. rewrite Es. rewrite lrange_prefix by done. reflexivity.
Qed.

(** [DELETE /api/emails] always answers 200 with [success] equal to [clear]'s result; with no backend failure the list is empty afterwards. *)
Theorem X_emails_DELETE (w : World) :
  exists success, fst (clear w) = inr success /\
    fst (emails_DELETE w) = inr (mkSuccessResponse 200 success) /\
    (faults w = [] -> success = true /\ emails (store (snd (emails_DELETE w))) = []).
Proof.
  destruct (try_ret_inr (do es <- r_lrange 0 (-1);
     do_ (if (0 <? length es)%nat then r_del_emails_by_id (map id es) else ret tt);
     do_ r_del_list; do_ r_del_last; ret true) false w) as (b & w' & E).
  exists b. unfold emails_DELETE, try_catch, bind. fold clear in E. rewrite E.
  split; [done|]. split; [done|]. intros Hf. rewrite clear_ok in E by done.
  injection E as <- <-. split; [done|]. destruct w; reflexivity.
Qed.

(** [POST /api/cleanup] always answers 200 with at most 100 emails inspected, test and real counts adding up to the total, the real count never negative. *)
Theorem X_cleanup_report (w : World) :
  exists es,
    fst (cleanup_POST w) =
      inr (mkCleanupReport 200 true (length es) (length (filter isTestEmail es))
             (Z.of_nat (length es) - Z.of_nat (length (filter isTestEmail es)))) /\
    (length es <= 100)%nat /\
    (length (filter isTestEmail es) <= length es)%nat /\
    (faults w = [] -> es = firstn 100 (emails (store w))).
Proof.
  destruct (getEmails 100 w) as [[e|es] w1] eqn:E.
  - exfalso. destruct (try_ret_inr (r_lrange 0 (100 - 1)) [] w) as (a & w' & E').
    unfold getEmails in E. congruence.
  - exists es. split; [unfold cleanup_POST, try_catch, bind; rewrite E; reflexivity|].
    assert (Hes : es = [] \/ es = firstn 100 (emails (store w))).
    { destruct (getEmails_cases 100 w) as [H|H]; rewrite E in H; simpl in H;
        injection H as ->; [by left|right].
      rewrite lrange_prefix by lia. reflexivity. }
    split; [destruct Hes as [-> | ->]; [simpl; lia | rewrite length_firstn; lia]|].
    split; [apply length_filter|].
    intros Hf. rewrite getEmails_run in E by done. injection E as <- _.
    rewrite lrange_prefix by lia. reflexivity.
Qed.

(** [DELETE /api/cleanup] reports success even when [clear] failed and nothing was deleted. *)
Theorem X_cleanup_DELETE_reports_success (w : World) :
  fst (cleanup_DELETE w) = inr (mkSuccessResponse 200 true) /\
  (forall fs, faults w = true :: fs ->
     fst (clear w) = inr false /\ store (snd (cleanup_DELETE w)) = store w).
Proof.
  split.
  - unfold cleanup_DELETE, try_catch, bind.
    destruct (try_ret_inr (do es <- r_lrange 0 (-1);
       do_ (if (0 <? length es)%nat then r_del_emails_by_id (map id es) else ret tt);
       do_ r_del_list; do_ r_del_last; ret true) false w) as (b & w' & E).
    fold clear in E. rewrite E. reflexivity.
  - intros fs Hf. destruct w as [x s t f c l]; simpl in Hf; subst f. split; reflexivity.
Qed.

Lemma toLowerCase_empty (s : string) : toLowerCase s = ""%string -> s = ""%string.
Proof. destruct s; simpl; congruence. Qed.

(** The dashboard search returns every email for an empty query, gives the same result for a query and its lower-case form, and only returns emails of the list. *)
Theorem X_search_caseless (q : string) (es : list StoredEmail) :
  filteredEmails "" es = es /\
  filteredEmails q es = filteredEmails (toLowerCase q) es /\
  (forall e, e ∈ filteredEmails q es -> e ∈ es).
Proof.
  split; [reflexivity|]. split.
  - unfold filteredEmails. rewrite toLowerCase_idem.
    destruct (String.eqb q "") eqn:E.
    + apply String.eqb_eq in E. subst. reflexivity.
    + destruct (String.eqb (toLowerCase q) "") eqn:E'; [|reflexivity].
      apply String.eqb_eq, toLowerCase_empty in E'. subst. discriminate.
  - intros e. unfold filteredEmails. destruct (String.eqb q ""); [done|].
    rewrite list_elem_of_filter. tauto.
Qed.

(** [formatDate] shows [now] under a minute (and for dates in the future), whole minutes under an hour, whole hours under a day, whole days under a week, and the locale date beyond. *)
Theorem X_formatDate_buckets (d : Z) :
  (d < 60000 -> formatDate_rel d = Some "now"%string) /\
  (60000 <= d < 3600000 -> formatDate_rel d = Some (pretty (d / 60000) ++ "m")%string) /\
  (3600000 <= d < 86400000 -> formatDate_rel d = Some (pretty (d / 3600000) ++ "h")%string) /\
  (86400000 <= d < 604800000 -> formatDate_rel d = Some (pretty (d / 86400000) ++ "d")%string) /\
  (604800000 <= d -> formatDate_rel d = None).
Proof.
  unfold formatDate_rel. cbv zeta.
  rewrite !Z.div_div by lia. change (60000 * 60) with 3600000. change (3600000 * 24) with 86400000.
  pose proof (Z.div_mod d 60000 ltac:(lia)). pose proof (Z.mod_pos_bound d 60000 ltac:(lia)).
  pose proof (Z.div_mod d 3600000 ltac:(lia)). pose proof (Z.mod_pos_bound d 3600000 ltac:(lia)).
  pose proof (Z.div_mod d 86400000 ltac:(lia)). pose proof (Z.mod_pos_bound d 86400000 ltac:(lia)).
  split; [|split; [|split; [|split]]]; intros Hd;
  repeat match goal with
  | |- context [if ?c then _ else _] => destruct c eqn:?
  end; zbool; try reflexivity; lia.
Qed.

(** Witness of [X_getStats_after_addEmail]. *)
Lemma X_getStats_after_addEmail_witness :
  faults (startWorld sampleExt emptyStore) = [] /\
  toISOString sampleExt 0 <> ""%string /\
  fst (getStats (snd (addEmail (mkRec "a" "s") (startWorld sampleExt emptyStore)))) =
    inr (mkStats 1 (Some "d") (Some "d") (Some "0")).
Proof.
  split; [reflexivity|]. split; [vm_compute; discriminate|].
  exact (X_getStats_after_addEmail (mkRec "a" "s") (startWorld sampleExt emptyStore)
           eq_refl ltac:(vm_compute; discriminate)).
Defined.

(** Witness of [X_clear_empties_store]. *)
Lemma X_clear_empties_store_witness :
  faults (startWorld sampleExt oneStore) = [] /\
  fst (clear (startWorld sampleExt oneStore)) = inr true /\
  byId (store (snd (clear (startWorld sampleExt oneStore)))) !! "a" = None.
Proof.
  split; [reflexivity|].
  destruct (X_clear_empties_store (startWorld sampleExt oneStore) eq_refl)
    as (H1 & _ & H3 & _).
  split; [exact H1|]. apply (H3 (mkRec "a" "s")). constructor.
Defined.

(** Witness of [X_addEmail_round_trip]. *)
Lemma X_addEmail_round_trip_witness :
  faults (startWorld sampleExt emptyStore) = [] /\ Z.of_N 1000 <= emailTTL * 1000 /\
  fst (getEmail "a" (snd (advance 1000 (snd (addEmail (mkRec "a" "s")
                                               (startWorld sampleExt emptyStore)))))) =
    inr (Some (mkRec "a" "s")).
Proof.
  split; [reflexivity|]. split; [unfold emailTTL; lia|].
  destruct (X_addEmail_round_trip (mkRec "a" "s") (startWorld sampleExt emptyStore) 1000
              eq_refl ltac:(unfold emailTTL; lia)) as (_ & _ & H).
  exact H.
Defined.

(** Witness of [X_reads_on_backend_failure]. *)
Lemma X_reads_on_backend_failure_witness :
  let w := mkWorld sampleExt oneStore 0 [true] [] [] in
  faults w = [true] /\ getEmails 10 w = (inr [], set_faults [] w).
Proof.
  split; [reflexivity|].
  destruct (X_reads_on_backend_failure (mkWorld sampleExt oneStore 0 [true] [] []) []
              10 "a" eq_refl) as (H & _). exact H.
Defined.

(** Witness of [X_history_reconcile_ok]. *)
Lemma X_history_reconcile_ok_witness :
  let w := startWorld okExt emptyStore in
  digits_re "7" = true /\
  gmail_history okExt "7" = inr (Some [mkHistoryRecord (Some [Some "m1"])]) /\
  fst (fetchNewEmails (HStr "7") w) = inr [extractEmailDetails okExt msgA] /\
  calls (snd (fetchNewEmails (HStr "7") w)) = [CHistoryList "7"; CMessagesGet "m1"].
Proof.
  split; [reflexivity|]. split; [reflexivity|].
  destruct (X_history_reconcile_ok (HStr "7") (startWorld okExt emptyStore)
              [mkHistoryRecord (Some [Some "m1"])] [msgA] eq_refl eq_refl
              ltac:(discriminate) ltac:(constructor; [reflexivity | constructor]))
    as (H1 & H2 & _).
  split; [exact H1 | exact H2].
Defined.

(** Witness of [X_fallback_latest_unread]. *)
Lemma X_fallback_latest_unread_witness :
  let w := startWorld fallbackExt emptyStore in
  digits_re "7" = true /\ gmail_history fallbackExt "7" = inr None /\
  fst (fetchNewEmails (HStr "7") w) = inr [extractEmailDetails fallbackExt msgA] /\
  calls (snd (fetchNewEmails (HStr "7") w)) = [CHistoryList "7"; CMessagesList; CMessagesGet "m1"].
Proof.
  split; [reflexivity|]. split; [reflexivity|].
  destruct (X_fallback_latest_unread (HStr "7") (startWorld fallbackExt emptyStore)
              eq_refl (or_introl eq_refl)) as (H & _).
  exact (H "m1" [] msgA eq_refl ltac:(discriminate) eq_refl).
Defined.

(** Witness of [X_test_prefix_placeholder]. *)
Lemma X_test_prefix_placeholder_witness :
  let w := startWorld plainTestExt emptyStore in
  String.prefix "test" "test" = true /\
  emails (store (snd (POST (Some (envelope "dGVzdA==")) w))) =
    [testEmail plainTestExt 0 (mkGmailNotification "me" (HStr "test"))] /\
  calls (snd (POST (Some (envelope "dGVzdA==")) w)) = [].
Proof.
  split; [reflexivity|].
  destruct (X_test_prefix_placeholder (startWorld plainTestExt emptyStore)
              (envelope "dGVzdA==") (mkPubSubInner (Some "dGVzdA==") "1" "p") "dGVzdA=="
              (mkGmailNotification "me" (HStr "test")) eq_refl eq_refl eq_refl eq_refl eq_refl)
    as (H1 & H2 & _).
  split; [exact H1 | exact H2].
Defined.



(** Witness of [X_memstore_evicts_for_good]. *)
Lemma X_memstore_evicts_for_good_witness :
  (length (@nil StoredEmail) <= 100)%nat /\ (100 <= length (replicate 100 (mkRec "b" "x")))%nat /\
  MemStore.getEmail "a" (fold_left (fun acc r => MemStore.addEmail r acc)
                           (replicate 100 (mkRec "b" "x")) (MemStore.addEmail (mkRec "a" "s") [])) = None.
Proof.
  split; [simpl; lia|]. split; [rewrite length_replicate; lia|].
  destruct (X_memstore_evicts_for_good (mkRec "a" "s") [] (replicate 100 (mkRec "b" "x"))
              ltac:(simpl; lia) ltac:(rewrite length_replicate; lia)
              ltac:(apply Forall_replicate; discriminate)) as (_ & H).
  exact H.
Defined.
